(** * dRowAudio: the positionable wave display

    A shallow embedding of [PositionableWaveDisplay]
    (gui/audiothumbnail/dRowAudio_PositionableWaveDisplay.cpp): the widget
    that draws a cached waveform image, overlays the transport cursor, polls
    the playback position from a 40 ms timer and turns mouse presses into
    seek requests; and of the array, date and address helpers of
    utility/dRowAudio_Utility.h.

    Layout of the development:
    - [Juce], [Image], [StateVariable]: the toolkit values the component
      stores and passes around;
    - [Double]: the arithmetic of the C++ type [double], with two instances,
      IEEE binary64 (what the machine computes) and exact rationals (the
      arithmetic the formulas are written for);
    - section [Component]: the member functions, written in a small monad
      that threads the object's fields, records the calls made on the
      collaborators and stops at undefined behaviour;
    - [Scenario]: a concrete object and concrete collaborators;
    - [Arrays], [JuceString] and the utility functions on them;
    - the properties: the poller and the cursor flag, notifications,
      resizing, the stored reciprocal, the poller's tick, painting,
      divisions, the way from position to pixel and back, the zoom ratio,
      and the scenarios run in binary64 and in exact arithmetic; then
      the utility functions, and further properties of the component. *)

From Stdlib Require Import ZArith QArith Qabs Floats Uint63 List Bool Lia Lqa.
From Stdlib Require Ascii String.
Import ListNotations.

Open Scope Z_scope.

(* ================================================================== *)
(** ** Toolkit values *)

Module Juce.

Inductive Colour : Type :=
| black
| green
| white
| argb (value : Z).

Inductive PixelFormat : Type := RGB | ARGB | SingleChannel.

Inductive MouseCursor : Type := NormalCursor | IBeamCursor.

(** [jmax (a, b)] is [(a < b) ? b : a]. *)
Definition jmax (a b : Z) : Z := if a <? b then b else a.

End Juce.

(** The C++ type [int]: 32 bits, two's complement.  Values are kept in [Z];
    a computation whose result leaves the range is undefined. *)
Definition INT_MIN : Z := -2147483648.
Definition INT_MAX : Z := 2147483647.

Definition in_int (z : Z) : bool := (INT_MIN <=? z) && (z <=? INT_MAX).

(** Images are known by what the component observes of them: whether they
    hold pixel data at all, their pixel format and their dimensions.  The
    pixels themselves are left out. *)
Module Image.

Inductive t : Type :=
| null
| bitmap (format : Juce.PixelFormat) (width height : Z).

Definition isValid (img : t) : bool :=
  match img with null => false | bitmap _ _ _ => true end.

Definition getWidth (img : t) : Z :=
  match img with null => 0 | bitmap _ w _ => w end.

Definition getHeight (img : t) : Z :=
  match img with null => 0 | bitmap _ _ h => h end.

(** [Image (format, width, height, clearImage)]. *)
Definition create (format : Juce.PixelFormat) (width height : Z)
           (clearImage : bool) : t :=
  bitmap format width height.

(** [duplicateIfShared] gives the handle pixel data of its own; the
    observable part of the image does not change. *)
Definition duplicateIfShared (img : t) : t := img.

(** [rescaled (newWidth, newHeight)]: an image without pixel data, or one
    that already has the requested size, is returned as it is; otherwise a
    new image of the requested size is made. *)
Definition rescaled (img : t) (newWidth newHeight : Z) : t :=
  match img with
  | null => null
  | bitmap f w h =>
      if (w =? newWidth) && (h =? newHeight) then img
      else bitmap f newWidth newHeight
  end.

End Image.

(** Modelled from the spec: the class template [StateVariable], whose
    declaration is not among the files at hand.  "CursorPosition
    (double-buffered): holds previous and current cursor pixel X coordinate";
    an assignment does "previous <- current, current <- new", and the
    comparison of the two drives the redraw decision. *)
Module StateVariable.

Record t : Type := { previous : Z; current : Z }.

Definition getCurrent (v : t) : Z := current v.
Definition getPrevious (v : t) : Z := previous v.

(** [operator=] *)
Definition assign (v : t) (newValue : Z) : t :=
  {| previous := current v; current := newValue |}.

Definition areEqual (v : t) : bool := previous v =? current v.

End StateVariable.

(* ================================================================== *)
(** ** The arithmetic of [double] *)

(** The operations the component applies to values of type [double].
    [toInt] is the conversion to [int]: it drops the fractional part and is
    undefined ([None]) when the truncated value does not fit an [int]. *)
Class Double (D : Type) : Type := {
  fromInt : Z -> D;
  toInt : D -> option Z;
  half : D;
  dadd : D -> D -> D;
  dsub : D -> D -> D;
  dmul : D -> D -> D;
  dquot : D -> D -> D;
  dlt : D -> D -> bool
}.

Declare Scope double_scope.
Delimit Scope double_scope with dbl.
Infix "+" := dadd : double_scope.
Infix "-" := dsub : double_scope.
Infix "*" := dmul : double_scope.
Notation "a <? b" := (dlt a b) : double_scope.
Notation "a >? b" := (dlt b a) (only parsing) : double_scope.

(** *** IEEE binary64 *)

(** [int] to [double]; exact on every [int]. *)
Definition float_of_int (z : Z) : float :=
  if z <? 0
  then PrimFloat.opp (PrimFloat.of_uint63 (Uint63.of_Z (- z)))
  else PrimFloat.of_uint63 (Uint63.of_Z z).

(** The integer part of a finite float, toward zero. *)
Definition float_trunc (f : float) : option Z :=
  match Prim2SF f with
  | S754_zero _ => Some 0
  | S754_finite s m e =>
      let magnitude :=
        if 0 <=? e then Z.pos m * 2 ^ e else Z.pos m / 2 ^ (- e) in
      Some (if s then - magnitude else magnitude)
  | S754_infinity _ => None
  | S754_nan => None
  end.

Definition float_to_int (f : float) : option Z :=
  match float_trunc f with
  | Some z => if in_int z then Some z else None
  | None => None
  end.

#[global] Instance Binary64 : Double float := {|
  fromInt := float_of_int;
  toInt := float_to_int;
  half := 0.5%float;
  dadd := PrimFloat.add;
  dsub := PrimFloat.sub;
  dmul := PrimFloat.mul;
  dquot := PrimFloat.div;
  dlt := PrimFloat.ltb
|}.

(** *** Exact rationals *)

Definition Qtrunc (q : Q) : Z := Z.quot (Qnum q) (Z.pos (Qden q)).

Definition Q_to_int (q : Q) : option Z :=
  if in_int (Qtrunc q) then Some (Qtrunc q) else None.

Definition Qltb (a b : Q) : bool := negb (Qle_bool b a).

#[global] Instance Exact : Double Q := {|
  fromInt := inject_Z;
  toInt := Q_to_int;
  half := 1 # 2;
  dadd := Qplus;
  dsub := Qminus;
  dmul := Qmult;
  dquot := Qdiv;
  dlt := Qltb
|}.

(* ================================================================== *)
(** ** The component *)

(** Objects are told apart by their address. *)
Definition Ptr : Type := Z.

(** Modelled from the spec: the identifiers of the component's timers, an
    enumeration of the class declaration, which is not among the files at
    hand.  The position poller is "a single periodic tick"; every other
    identifier is one the component never starts. *)
Inductive TimerId : Type :=
| waveformUpdated
| unusedTimer (n : Z).

Definition TimerId_eqb (a b : TimerId) : bool :=
  match a, b with
  | waveformUpdated, waveformUpdated => true
  | unusedTimer n, unusedTimer m => n =? m
  | _, _ => false
  end.

Section Component.

Context {D : Type} {DD : Double D}.

(** *** Collaborators

    What the component reads from the objects around it at the time of a
    call: its own bounds, the thumbnail image it listens to and the player
    behind that thumbnail. *)

Record AudioFormatReader : Type := { sampleRate : D }.

Record AudioFormatReaderSource : Type :=
  { getAudioFormatReader : option AudioFormatReader }.

Record AudioFilePlayer : Type := {
  getAudioFormatReaderSource : option AudioFormatReaderSource;
  getLengthInSeconds : D;
  getCurrentPosition : D
}.

Record AudioThumbnailImage : Type := {
  hasFinishedLoading : bool;
  getImage : Image.t
}.

Record Host : Type := {
  getWidth : Z;
  getHeight : Z;
  thumbnail : AudioThumbnailImage;
  audioFilePlayer : AudioFilePlayer
}.

(** *** Calls made on the collaborators

    [Divide] is not a call: it records that a division was carried out,
    with its operands. *)
Inductive Effect : Type :=
| SetOpaque (shouldBeOpaque : bool)
| AddListener (source : Ptr)
| RemoveListener (source : Ptr)
| Repaint
| RepaintArea (x y w h : Z)
| SourceSetBackgroundColour (c : Juce.Colour)
| SourceSetWaveformColour (c : Juce.Colour)
| SetColour (c : Juce.Colour)
| FillAll
| DrawImage (img : Image.t) (destX destY destW destH : Z)
            (sourceX sourceY sourceW sourceH : Z) (fillAlpha : bool)
| DrawImageAt (img : Image.t) (x y : Z)
| SetPosition (newPosition : D)
| SetMouseCursor (c : Juce.MouseCursor)
| JAssertFalse
| Divide (dividend divisor : D).

(** *** The object

    Modelled from the spec: the class declaration is not among the files
    at hand; the members are those the member functions use, real-valued
    ones as [double] ("getCurrentPosition() -> seconds (double)") and pixel
    coordinates as [int].  [timer] is the state of the [waveformUpdated]
    timer of the base class: [Some interval] while it runs. *)
Record WaveDisplay : Type := {
  fileLength : D;
  oneOverFileLength : D;
  currentSampleRate : D;
  zoomRatio : D;
  startOffsetRatio : D;
  verticalZoomRatio : D;
  audioThumbnailImage : Ptr;
  backgroundColour : Juce.Colour;
  waveformColour : Juce.Colour;
  cachedImage : Image.t;
  cursorImage : Image.t;
  transportLineXCoord : StateVariable.t;
  currentXScale : D;
  currentMouseX : Z;
  showTransportCursor : bool;
  timer : option Z
}.

Definition set_fileLength (v : D) (st : WaveDisplay) : WaveDisplay :=
  {| fileLength := v; oneOverFileLength := oneOverFileLength st;
     currentSampleRate := currentSampleRate st; zoomRatio := zoomRatio st;
     startOffsetRatio := startOffsetRatio st;
     verticalZoomRatio := verticalZoomRatio st;
     audioThumbnailImage := audioThumbnailImage st;
     backgroundColour := backgroundColour st;
     waveformColour := waveformColour st; cachedImage := cachedImage st;
     cursorImage := cursorImage st;
     transportLineXCoord := transportLineXCoord st;
     currentXScale := currentXScale st; currentMouseX := currentMouseX st;
     showTransportCursor := showTransportCursor st; timer := timer st |}.

Definition set_oneOverFileLength (v : D) (st : WaveDisplay) : WaveDisplay :=
  {| fileLength := fileLength st; oneOverFileLength := v;
     currentSampleRate := currentSampleRate st; zoomRatio := zoomRatio st;
     startOffsetRatio := startOffsetRatio st;
     verticalZoomRatio := verticalZoomRatio st;
     audioThumbnailImage := audioThumbnailImage st;
     backgroundColour := backgroundColour st;
     waveformColour := waveformColour st; cachedImage := cachedImage st;
     cursorImage := cursorImage st;
     transportLineXCoord := transportLineXCoord st;
     currentXScale := currentXScale st; currentMouseX := currentMouseX st;
     showTransportCursor := showTransportCursor st; timer := timer st |}.

Definition set_currentSampleRate (v : D) (st : WaveDisplay) : WaveDisplay :=
  {| fileLength := fileLength st;
     oneOverFileLength := oneOverFileLength st; currentSampleRate := v;
     zoomRatio := zoomRatio st; startOffsetRatio := startOffsetRatio st;
     verticalZoomRatio := verticalZoomRatio st;
     audioThumbnailImage := audioThumbnailImage st;
     backgroundColour := backgroundColour st;
     waveformColour := waveformColour st; cachedImage := cachedImage st;
     cursorImage := cursorImage st;
     transportLineXCoord := transportLineXCoord st;
     currentXScale := currentXScale st; currentMouseX := currentMouseX st;
     showTransportCursor := showTransportCursor st; timer := timer st |}.

Definition set_zoomRatio (v : D) (st : WaveDisplay) : WaveDisplay :=
  {| fileLength := fileLength st;
     oneOverFileLength := oneOverFileLength st;
     currentSampleRate := currentSampleRate st; zoomRatio := v;
     startOffsetRatio := startOffsetRatio st;
     verticalZoomRatio := verticalZoomRatio st;
     audioThumbnailImage := audioThumbnailImage st;
     backgroundColour := backgroundColour st;
     waveformColour := waveformColour st; cachedImage := cachedImage st;
     cursorImage := cursorImage st;
     transportLineXCoord := transportLineXCoord st;
     currentXScale := currentXScale st; currentMouseX := currentMouseX st;
     showTransportCursor := showTransportCursor st; timer := timer st |}.

Definition set_startOffsetRatio (v : D) (st : WaveDisplay) : WaveDisplay :=
  {| fileLength := fileLength st;
     oneOverFileLength := oneOverFileLength st;
     currentSampleRate := currentSampleRate st; zoomRatio := zoomRatio st;
     startOffsetRatio := v; verticalZoomRatio := verticalZoomRatio st;
     audioThumbnailImage := audioThumbnailImage st;
     backgroundColour := backgroundColour st;
     waveformColour := waveformColour st; cachedImage := cachedImage st;
     cursorImage := cursorImage st;
     transportLineXCoord := transportLineXCoord st;
     currentXScale := currentXScale st; currentMouseX := currentMouseX st;
     showTransportCursor := showTransportCursor st; timer := timer st |}.

Definition set_verticalZoomRatio (v : D) (st : WaveDisplay) : WaveDisplay :=
  {| fileLength := fileLength st;
     oneOverFileLength := oneOverFileLength st;
     currentSampleRate := currentSampleRate st; zoomRatio := zoomRatio st;
     startOffsetRatio := startOffsetRatio st; verticalZoomRatio := v;
     audioThumbnailImage := audioThumbnailImage st;
     backgroundColour := backgroundColour st;
     waveformColour := waveformColour st; cachedImage := cachedImage st;
     cursorImage := cursorImage st;
     transportLineXCoord := transportLineXCoord st;
     currentXScale := currentXScale st; currentMouseX := currentMouseX st;
     showTransportCursor := showTransportCursor st; timer := timer st |}.

Definition set_backgroundColour (v : Juce.Colour)
           (st : WaveDisplay) : WaveDisplay :=
  {| fileLength := fileLength st;
     oneOverFileLength := oneOverFileLength st;
     currentSampleRate := currentSampleRate st; zoomRatio := zoomRatio st;
     startOffsetRatio := startOffsetRatio st;
     verticalZoomRatio := verticalZoomRatio st;
     audioThumbnailImage := audioThumbnailImage st; backgroundColour := v;
     waveformColour := waveformColour st; cachedImage := cachedImage st;
     cursorImage := cursorImage st;
     transportLineXCoord := transportLineXCoord st;
     currentXScale := currentXScale st; currentMouseX := currentMouseX st;
     showTransportCursor := showTransportCursor st; timer := timer st |}.

Definition set_waveformColour (v : Juce.Colour)
           (st : WaveDisplay) : WaveDisplay :=
  {| fileLength := fileLength st;
     oneOverFileLength := oneOverFileLength st;
     currentSampleRate := currentSampleRate st; zoomRatio := zoomRatio st;
     startOffsetRatio := startOffsetRatio st;
     verticalZoomRatio := verticalZoomRatio st;
     audioThumbnailImage := audioThumbnailImage st;
     backgroundColour := backgroundColour st; waveformColour := v;
     cachedImage := cachedImage st; cursorImage := cursorImage st;
     transportLineXCoord := transportLineXCoord st;
     currentXScale := currentXScale st; currentMouseX := currentMouseX st;
     showTransportCursor := showTransportCursor st; timer := timer st |}.

Definition set_cachedImage (v : Image.t) (st : WaveDisplay) : WaveDisplay :=
  {| fileLength := fileLength st;
     oneOverFileLength := oneOverFileLength st;
     currentSampleRate := currentSampleRate st; zoomRatio := zoomRatio st;
     startOffsetRatio := startOffsetRatio st;
     verticalZoomRatio := verticalZoomRatio st;
     audioThumbnailImage := audioThumbnailImage st;
     backgroundColour := backgroundColour st;
     waveformColour := waveformColour st; cachedImage := v;
     cursorImage := cursorImage st;
     transportLineXCoord := transportLineXCoord st;
     currentXScale := currentXScale st; currentMouseX := currentMouseX st;
     showTransportCursor := showTransportCursor st; timer := timer st |}.

Definition set_cursorImage (v : Image.t) (st : WaveDisplay) : WaveDisplay :=
  {| fileLength := fileLength st;
     oneOverFileLength := oneOverFileLength st;
     currentSampleRate := currentSampleRate st; zoomRatio := zoomRatio st;
     startOffsetRatio := startOffsetRatio st;
     verticalZoomRatio := verticalZoomRatio st;
     audioThumbnailImage := audioThumbnailImage st;
     backgroundColour := backgroundColour st;
     waveformColour := waveformColour st; cachedImage := cachedImage st;
     cursorImage := v; transportLineXCoord := transportLineXCoord st;
     currentXScale := currentXScale st; currentMouseX := currentMouseX st;
     showTransportCursor := showTransportCursor st; timer := timer st |}.

Definition set_transportLineXCoord (v : StateVariable.t)
           (st : WaveDisplay) : WaveDisplay :=
  {| fileLength := fileLength st;
     oneOverFileLength := oneOverFileLength st;
     currentSampleRate := currentSampleRate st; zoomRatio := zoomRatio st;
     startOffsetRatio := startOffsetRatio st;
     verticalZoomRatio := verticalZoomRatio st;
     audioThumbnailImage := audioThumbnailImage st;
     backgroundColour := backgroundColour st;
     waveformColour := waveformColour st; cachedImage := cachedImage st;
     cursorImage := cursorImage st; transportLineXCoord := v;
     currentXScale := currentXScale st; currentMouseX := currentMouseX st;
     showTransportCursor := showTransportCursor st; timer := timer st |}.

Definition set_currentXScale (v : D) (st : WaveDisplay) : WaveDisplay :=
  {| fileLength := fileLength st;
     oneOverFileLength := oneOverFileLength st;
     currentSampleRate := currentSampleRate st; zoomRatio := zoomRatio st;
     startOffsetRatio := startOffsetRatio st;
     verticalZoomRatio := verticalZoomRatio st;
     audioThumbnailImage := audioThumbnailImage st;
     backgroundColour := backgroundColour st;
     waveformColour := waveformColour st; cachedImage := cachedImage st;
     cursorImage := cursorImage st;
     transportLineXCoord := transportLineXCoord st; currentXScale := v;
     currentMouseX := currentMouseX st;
     showTransportCursor := showTransportCursor st; timer := timer st |}.

Definition set_currentMouseX (v : Z) (st : WaveDisplay) : WaveDisplay :=
  {| fileLength := fileLength st;
     oneOverFileLength := oneOverFileLength st;
     currentSampleRate := currentSampleRate st; zoomRatio := zoomRatio st;
     startOffsetRatio := startOffsetRatio st;
     verticalZoomRatio := verticalZoomRatio st;
     audioThumbnailImage := audioThumbnailImage st;
     backgroundColour := backgroundColour st;
     waveformColour := waveformColour st; cachedImage := cachedImage st;
     cursorImage := cursorImage st;
     transportLineXCoord := transportLineXCoord st;
     currentXScale := currentXScale st; currentMouseX := v;
     showTransportCursor := showTransportCursor st; timer := timer st |}.

Definition set_showTransportCursor (v : bool)
           (st : WaveDisplay) : WaveDisplay :=
  {| fileLength := fileLength st;
     oneOverFileLength := oneOverFileLength st;
     currentSampleRate := currentSampleRate st; zoomRatio := zoomRatio st;
     startOffsetRatio := startOffsetRatio st;
     verticalZoomRatio := verticalZoomRatio st;
     audioThumbnailImage := audioThumbnailImage st;
     backgroundColour := backgroundColour st;
     waveformColour := waveformColour st; cachedImage := cachedImage st;
     cursorImage := cursorImage st;
     transportLineXCoord := transportLineXCoord st;
     currentXScale := currentXScale st; currentMouseX := currentMouseX st;
     showTransportCursor := v; timer := timer st |}.

Definition set_timer (v : option Z) (st : WaveDisplay) : WaveDisplay :=
  {| fileLength := fileLength st;
     oneOverFileLength := oneOverFileLength st;
     currentSampleRate := currentSampleRate st; zoomRatio := zoomRatio st;
     startOffsetRatio := startOffsetRatio st;
     verticalZoomRatio := verticalZoomRatio st;
     audioThumbnailImage := audioThumbnailImage st;
     backgroundColour := backgroundColour st;
     waveformColour := waveformColour st; cachedImage := cachedImage st;
     cursorImage := cursorImage st;
     transportLineXCoord := transportLineXCoord st;
     currentXScale := currentXScale st; currentMouseX := currentMouseX st;
     showTransportCursor := showTransportCursor st; timer := v |}.

(** *** Computations

    A member function takes the object and gives the calls it made, in
    order, and, unless it ran into undefined behaviour, its result with the
    object as it leaves it. *)
Definition Outcome (A : Type) : Type :=
  (list Effect * option (A * WaveDisplay))%type.

Definition Comp (A : Type) : Type := WaveDisplay -> Outcome A.

Definition ret {A : Type} (a : A) : Comp A :=
  fun st => ([], Some (a, st)).

Definition bind {A B : Type} (c : Comp A) (k : A -> Comp B) : Comp B :=
  fun st =>
    match c st with
    | (log, Some (a, st')) => (log ++ fst (k a st'), snd (k a st'))
    | (log, None) => (log, None)
    end.

Definition get : Comp WaveDisplay := fun st => ([], Some (st, st)).

Definition modify (f : WaveDisplay -> WaveDisplay) : Comp unit :=
  fun st => ([], Some (tt, f st)).

Definition emit (e : Effect) : Comp unit :=
  fun st => ([e], Some (tt, st)).

Definition undefined {A : Type} : Comp A := fun _ => ([], None).

Definition defined {A : Type} (o : option A) : Comp A :=
  match o with
  | Some a => ret a
  | None => undefined
  end.

Notation "x <- c1 ;; c2" := (bind c1 (fun x => c2))
  (at level 61, c1 at next level, right associativity).
Notation "c1 ;; c2" := (bind c1 (fun _ => c2))
  (at level 61, right associativity).

(** The calls a computation made and the object it left. *)
Definition effects {A : Type} (o : Outcome A) : list Effect := fst o.

Definition final {A : Type} (o : Outcome A) : option WaveDisplay :=
  match snd o with
  | Some (_, st) => Some st
  | None => None
  end.

(** *** Arithmetic as statements *)

(** [double] to [int]. *)
Definition truncate (x : D) : Comp Z := defined (toInt x).

(** [a - b] on [int]. *)
Definition int_sub (a b : Z) : Comp Z :=
  if in_int (a - b) then ret (a - b) else undefined.

(** [a / b] on [double]. *)
Definition divide (a b : D) : Comp D :=
  emit (Divide a b) ;; ret (dquot a b).

(** *** Base-class services *)

Definition repaint : Comp unit := emit Repaint.

Definition repaintArea (x y w h : Z) : Comp unit :=
  emit (RepaintArea x y w h).

Definition startTimer (timerId : TimerId) (intervalInMilliseconds : Z)
  : Comp unit :=
  match timerId with
  | waveformUpdated => modify (set_timer (Some intervalInMilliseconds))
  | unusedTimer _ => ret tt
  end.

Definition stopTimer (timerId : TimerId) : Comp unit :=
  match timerId with
  | waveformUpdated => modify (set_timer None)
  | unusedTimer _ => ret tt
  end.

(** *** Construction and destruction *)

(** The members the constructor does not initialise: their values are
    whatever the object starts with. *)
Record Uninitialised : Type := {
  initial_fileLength : D;
  initial_oneOverFileLength : D;
  initial_currentXScale : D;
  initial_currentMouseX : Z;
  initial_transportLineXCoord : StateVariable.t
}.

Definition construct (sourceToBeUsed : Ptr) (u : Uninitialised)
  : list Effect * WaveDisplay :=
  ([SetOpaque true; AddListener sourceToBeUsed],
   {| fileLength := initial_fileLength u;
      oneOverFileLength := initial_oneOverFileLength u;
      currentSampleRate := fromInt 44100;
      zoomRatio := fromInt 1;
      startOffsetRatio := fromInt 0;
      verticalZoomRatio := fromInt 1;
      audioThumbnailImage := sourceToBeUsed;
      backgroundColour := Juce.black;
      waveformColour := Juce.green;
      cachedImage := Image.create Juce.RGB 1 1 false;
      cursorImage := Image.null;
      transportLineXCoord := initial_transportLineXCoord u;
      currentXScale := initial_currentXScale u;
      currentMouseX := initial_currentMouseX u;
      showTransportCursor := true;
      timer := None |}).

Definition destroy : Comp unit :=
  st <- get ;;
  emit (RemoveListener (audioThumbnailImage st)) ;;
  stopTimer waveformUpdated.

(** *** Setters *)

Definition setZoomRatio (newZoomRatio : D) : Comp unit :=
  newZoomRatio <-
    (if (newZoomRatio <? fromInt 0)%dbl || (newZoomRatio >? fromInt 10000)%dbl
     then emit JAssertFalse ;; ret (fromInt 1)
     else ret newZoomRatio) ;;
  modify (set_zoomRatio newZoomRatio) ;;
  repaint.

Definition setStartOffsetRatio (newStartOffsetRatio : D) : Comp unit :=
  modify (set_startOffsetRatio newStartOffsetRatio) ;;
  repaint.

Definition setVerticalZoomRatio (newVerticalZoomRatio : D) : Comp unit :=
  modify (set_verticalZoomRatio newVerticalZoomRatio) ;;
  repaint.

Definition setCursorDisplayed (shoudldDisplayCursor : bool) : Comp unit :=
  modify (set_showTransportCursor shoudldDisplayCursor) ;;
  st <- get ;;
  if showTransportCursor st
  then startTimer waveformUpdated 40
  else stopTimer waveformUpdated.

Definition setBackgroundColour (newBackgroundColour : Juce.Colour)
  : Comp unit :=
  modify (set_backgroundColour newBackgroundColour) ;;
  st <- get ;;
  emit (SourceSetBackgroundColour (backgroundColour st)) ;;
  repaint.

Definition setWaveformColour (newWaveformColour : Juce.Colour)
  : Comp unit :=
  modify (set_waveformColour newWaveformColour) ;;
  st <- get ;;
  emit (SourceSetWaveformColour (waveformColour st)) ;;
  repaint.

(** *** Layout and painting *)

(** The cursor image is filled black and gets a white vertical line in its
    middle column; these are writes to its pixels and leave no trace here. *)
Definition resized (host : Host) : Comp unit :=
  modify (set_cursorImage
            (Image.create Juce.RGB 3 (Juce.jmax 1 (getHeight host)) true)) ;;
  if hasFinishedLoading (thumbnail host)
  then
    modify (set_cachedImage (getImage (thumbnail host))) ;;
    modify (fun st => set_cachedImage
                        (Image.duplicateIfShared (cachedImage st)) st) ;;
    modify (fun st => set_cachedImage
                        (Image.rescaled (cachedImage st)
                                        (getWidth host) (getHeight host)) st)
  else ret tt.

Definition paint (host : Host) : Comp unit :=
  let w := getWidth host in
  let h := getHeight host in
  st <- get ;;
  emit (SetColour (backgroundColour st)) ;;
  emit FillAll ;;
  startPixel <- truncate (fromInt w * startOffsetRatio st)%dbl ;;
  let newHeight := (verticalZoomRatio st * fromInt h)%dbl in
  startPixelY <- truncate (fromInt h * half - newHeight * half)%dbl ;;
  destH <- truncate newHeight ;;
  sourceW <-
    truncate (fromInt (Image.getWidth (cachedImage st)) * zoomRatio st)%dbl ;;
  emit (DrawImage (cachedImage st)
                  startPixel startPixelY w destH
                  0 0 sourceW (Image.getHeight (cachedImage st))
                  false) ;;
  if showTransportCursor st
  then
    x <- int_sub (StateVariable.getCurrent (transportLineXCoord st)) 1 ;;
    emit (DrawImageAt (cursorImage st) x 0)
  else ret tt.

(** *** The position poller *)

Definition timerCallback (host : Host) (timerId : TimerId) : Comp unit :=
  if TimerId_eqb timerId waveformUpdated
  then
    let w := getWidth host in
    let h := getHeight host in
    st <- get ;;
    startPixel <- truncate (fromInt w * startOffsetRatio st)%dbl ;;
    offset <-
      divide (fromInt w * oneOverFileLength st
              * getCurrentPosition (audioFilePlayer host))%dbl
             (zoomRatio st) ;;
    x <- truncate (fromInt startPixel + offset)%dbl ;;
    modify (fun st => set_transportLineXCoord
                        (StateVariable.assign (transportLineXCoord st) x) st) ;;
    st <- get ;;
    if negb (StateVariable.areEqual (transportLineXCoord st))
    then
      x0 <- int_sub (StateVariable.getPrevious (transportLineXCoord st)) 2 ;;
      repaintArea x0 0 5 h ;;
      x1 <- int_sub (StateVariable.getCurrent (transportLineXCoord st)) 2 ;;
      repaintArea x1 0 5 h
    else ret tt
  else ret tt.

(** *** Notifications from the thumbnail image *)

Definition imageChanged (host : Host) (changedAudioThumbnailImage : Ptr)
  : Comp unit :=
  st <- get ;;
  if changedAudioThumbnailImage =? audioThumbnailImage st
  then
    modify (set_cachedImage Image.null) ;;
    let readerSource :=
      getAudioFormatReaderSource (audioFilePlayer host) in
    let reader :=
      match readerSource with
      | Some source => getAudioFormatReader source
      | None => None
      end in
    let noReader : Comp unit :=
      modify (set_currentSampleRate (fromInt 44100)) ;;
      modify (set_fileLength (fromInt 0)) ;;
      st <- get ;;
      inverse <- divide (fromInt 1) (fileLength st) ;;
      modify (set_oneOverFileLength inverse) in
    match reader with
    | Some r =>
        if (sampleRate r >? fromInt 0)%dbl
        then
          modify (set_currentSampleRate (sampleRate r)) ;;
          modify (set_fileLength
                    (getLengthInSeconds (audioFilePlayer host))) ;;
          st <- get ;;
          inverse <- divide (fromInt 1) (fileLength st) ;;
          modify (set_oneOverFileLength inverse) ;;
          st <- get ;;
          if showTransportCursor st
          then startTimer waveformUpdated 40
          else ret tt
        else noReader
    | None => noReader
    end
  else ret tt.

Definition imageUpdated (host : Host) (changedAudioThumbnailImage : Ptr)
  : Comp unit :=
  modify (set_cachedImage (getImage (thumbnail host))) ;;
  repaint.

Definition imageFinished (host : Host) (changedAudioThumbnailImage : Ptr)
  : Comp unit :=
  resized host.

(** *** The mouse *)

Definition mouseDown (host : Host) (e_x : Z) : Comp unit :=
  st <- get ;;
  if showTransportCursor st
  then
    emit (SetMouseCursor Juce.IBeamCursor) ;;
    modify (set_currentMouseX e_x) ;;
    let w := getWidth host in
    st <- get ;;
    perPixel <- divide (fileLength st) (fromInt w) ;;
    modify (set_currentXScale (perPixel * zoomRatio st)%dbl) ;;
    st <- get ;;
    startPixel <- truncate (fromInt w * startOffsetRatio st)%dbl ;;
    distance <- int_sub (currentMouseX st) startPixel ;;
    let position := (currentXScale st * fromInt distance)%dbl in
    emit (SetPosition position) ;;
    repaint
  else ret tt.

Definition mouseUp (host : Host) (e_x : Z) : Comp unit :=
  st <- get ;;
  if showTransportCursor st
  then emit (SetMouseCursor Juce.NormalCursor)
  else ret tt.

Definition mouseDrag (host : Host) (e_x : Z) : Comp unit :=
  st <- get ;;
  if showTransportCursor st
  then
    modify (set_currentMouseX e_x) ;;
    let w := getWidth host in
    st <- get ;;
    startPixel <- truncate (fromInt w * startOffsetRatio st)%dbl ;;
    distance <- int_sub (currentMouseX st) startPixel ;;
    let position := (currentXScale st * fromInt distance)%dbl in
    emit (SetPosition position)
  else ret tt.

(** *** Histories

    What the event loop can ask of the component, and what a sequence of
    such requests does, each one served with the collaborators as they are
    at that time. *)
Inductive Call : Type :=
| CallSetZoomRatio (newZoomRatio : D)
| CallSetStartOffsetRatio (newStartOffsetRatio : D)
| CallSetVerticalZoomRatio (newVerticalZoomRatio : D)
| CallSetCursorDisplayed (shoudldDisplayCursor : bool)
| CallSetBackgroundColour (newBackgroundColour : Juce.Colour)
| CallSetWaveformColour (newWaveformColour : Juce.Colour)
| CallResized
| CallPaint
| CallTimerCallback (timerId : TimerId)
| CallImageChanged (changedAudioThumbnailImage : Ptr)
| CallImageUpdated (changedAudioThumbnailImage : Ptr)
| CallImageFinished (changedAudioThumbnailImage : Ptr)
| CallMouseDown (e_x : Z)
| CallMouseUp (e_x : Z)
| CallMouseDrag (e_x : Z).

Definition serve (host : Host) (c : Call) : Comp unit :=
  match c with
  | CallSetZoomRatio z => setZoomRatio z
  | CallSetStartOffsetRatio r => setStartOffsetRatio r
  | CallSetVerticalZoomRatio r => setVerticalZoomRatio r
  | CallSetCursorDisplayed b => setCursorDisplayed b
  | CallSetBackgroundColour c => setBackgroundColour c
  | CallSetWaveformColour c => setWaveformColour c
  | CallResized => resized host
  | CallPaint => paint host
  | CallTimerCallback timerId => timerCallback host timerId
  | CallImageChanged p => imageChanged host p
  | CallImageUpdated p => imageUpdated host p
  | CallImageFinished p => imageFinished host p
  | CallMouseDown x => mouseDown host x
  | CallMouseUp x => mouseUp host x
  | CallMouseDrag x => mouseDrag host x
  end.

Fixpoint run (history : list (Host * Call)) : Comp unit :=
  match history with
  | [] => ret tt
  | (host, c) :: rest => serve host c ;; run rest
  end.

(** *** Vocabulary of the properties *)

(** The reader the player offers, when there is one and its sample rate is
    positive: the condition under which [imageChanged] takes the length of
    the file from the player. *)
Definition usableReader (host : Host) : option AudioFormatReader :=
  match getAudioFormatReaderSource (audioFilePlayer host) with
  | Some source =>
      match getAudioFormatReader source with
      | Some r => if (sampleRate r >? fromInt 0)%dbl then Some r else None
      | None => None
      end
  | None => None
  end.

(** The poller as the specification gates it: running only while the cursor
    is shown and the file has a positive length. *)
Definition poller_gated (st : WaveDisplay) : Prop :=
  timer st <> None ->
  showTransportCursor st = true /\ (fileLength st >? fromInt 0)%dbl = true.

(** The poller as the code keeps it: running only while the cursor is
    shown, and then every 40 ms. *)
Definition poller_follows_cursor (st : WaveDisplay) : Prop :=
  timer st <> None -> showTransportCursor st = true /\ timer st = Some 40.

(** The redraw requests among the calls made. *)
Fixpoint redraws (log : list Effect) : list Effect :=
  match log with
  | [] => []
  | Repaint :: rest => Repaint :: redraws rest
  | RepaintArea x y w h :: rest => RepaintArea x y w h :: redraws rest
  | _ :: rest => redraws rest
  end.

(** The source rectangles (x, y, width, height) of the images drawn with
    [drawImage], and the width they are stretched to. *)
Fixpoint drawnSources (log : list Effect) : list (Z * Z * Z * Z * Z) :=
  match log with
  | [] => []
  | DrawImage _ _ _ destW _ sx sy sw sh _ :: rest =>
      (sx, sy, sw, sh, destW) :: drawnSources rest
  | _ :: rest => drawnSources rest
  end.

(** The seek requests among the calls made. *)
Fixpoint seeks (log : list Effect) : list D :=
  match log with
  | [] => []
  | SetPosition p :: rest => p :: seeks rest
  | _ :: rest => seeks rest
  end.

(** A computation respects a relation between the object before and after
    when every defined run of it relates the two. *)
Definition respects {A : Type} (R : WaveDisplay -> WaveDisplay -> Prop)
           (c : Comp A) : Prop :=
  forall st a st', snd (c st) = Some (a, st') -> R st st'.

(** Neither the timer nor the cursor flag changes. *)
Definition same_poller (st st' : WaveDisplay) : Prop :=
  timer st' = timer st /\ showTransportCursor st' = showTransportCursor st.

(** Neither the file length nor its stored reciprocal changes. *)
Definition same_length (st st' : WaveDisplay) : Prop :=
  fileLength st' = fileLength st
  /\ oneOverFileLength st' = oneOverFileLength st.

(** The stored reciprocal is the quotient the code computes from the
    stored file length. *)
Definition reciprocal_stored (st : WaveDisplay) : Prop :=
  oneOverFileLength st = dquot (fromInt 1) (fileLength st).

(** The calls that start or stop the poller. *)
Definition drives_poller (c : Call) : bool :=
  match c with
  | CallSetCursorDisplayed _ => true
  | CallImageChanged _ => true
  | _ => false
  end.

(** The divisions a computation carried out, as (dividend, divisor). *)
Fixpoint divisions (log : list Effect) : list (D * D) :=
  match log with
  | [] => []
  | Divide a b :: rest => (a, b) :: divisions rest
  | _ :: rest => divisions rest
  end.

(** The pixel [timerCallback] computes for the cursor: the value it assigns
    to [transportLineXCoord]. *)
Definition cursorPixel (host : Host) (st : WaveDisplay) : option Z :=
  match toInt (fromInt (getWidth host) * startOffsetRatio st)%dbl with
  | Some startPixel =>
      toInt (fromInt startPixel
             + dquot (fromInt (getWidth host) * oneOverFileLength st
                      * getCurrentPosition (audioFilePlayer host))
                     (zoomRatio st))%dbl
  | None => None
  end.

End Component.

Arguments AudioFormatReader : clear implicits.
Arguments AudioFormatReaderSource : clear implicits.
Arguments AudioFilePlayer : clear implicits.
Arguments AudioThumbnailImage : clear implicits.
Arguments Host : clear implicits.
Arguments Effect : clear implicits.
Arguments WaveDisplay : clear implicits.
Arguments Outcome : clear implicits.
Arguments Comp : clear implicits.
Arguments Uninitialised : clear implicits.
Arguments Call : clear implicits.

(* ================================================================== *)
(** ** Scenarios *)

(** An object and its collaborators to run the member functions on, in
    whichever arithmetic: a viewport of [w] by [h] pixels, a thumbnail that
    has finished loading a 1600 x 300 image or is still loading it, and a
    player with or without a file. *)
Module Scenario.

Section WithArithmetic.

Context (D : Type) {DD : Double D}.

(** The address of the thumbnail image the component listens to. *)
Definition source : Ptr := 4096.

(** Some values for the members the constructor leaves as they are. *)
Definition garbage : Uninitialised D :=
  {| initial_fileLength := fromInt (-7);
     initial_oneOverFileLength := fromInt 3;
     initial_currentXScale := fromInt 0;
     initial_currentMouseX := 0;
     initial_transportLineXCoord :=
       {| StateVariable.previous := 0; StateVariable.current := 0 |} |}.

Definition fresh : WaveDisplay D := snd (construct source garbage).

Definition waveform : Image.t := Image.bitmap Juce.RGB 1600 300.

(** A player with a file of [len] seconds at 44.1 kHz, now at [pos]. *)
Definition playing (len pos : D) : AudioFilePlayer D :=
  {| getAudioFormatReaderSource :=
       Some {| getAudioFormatReader :=
                 Some {| sampleRate := fromInt 44100 |} |};
     getLengthInSeconds := len;
     getCurrentPosition := pos |}.

(** A player without a file. *)
Definition silent : AudioFilePlayer D :=
  {| getAudioFormatReaderSource := None;
     getLengthInSeconds := fromInt 0;
     getCurrentPosition := fromInt 0 |}.

Definition host (w h : Z) (player : AudioFilePlayer D) : Host D :=
  {| getWidth := w;
     getHeight := h;
     thumbnail := {| hasFinishedLoading := true; getImage := waveform |};
     audioFilePlayer := player |}.

(** The same viewport and player with a thumbnail that is still at work on
    its image. *)
Definition loadingHost (w h : Z) (player : AudioFilePlayer D) : Host D :=
  {| getWidth := w;
     getHeight := h;
     thumbnail := {| hasFinishedLoading := false; getImage := waveform |};
     audioFilePlayer := player |}.

(** How the component comes to show a file of 100 seconds in a viewport of
    800 x 200: the file is announced, then the viewport laid out. *)
Definition opening : list (Host D * Call D) :=
  [(host 800 200 (playing (fromInt 100) (fromInt 0)), CallImageChanged source);
   (host 800 200 (playing (fromInt 100) (fromInt 0)), CallResized)].

(** The object after [opening]. *)
Definition ready : WaveDisplay D :=
  {| fileLength := fromInt 100;
     oneOverFileLength := dquot (fromInt 1) (fromInt 100);
     currentSampleRate := fromInt 44100;
     zoomRatio := fromInt 1;
     startOffsetRatio := fromInt 0;
     verticalZoomRatio := fromInt 1;
     audioThumbnailImage := source;
     backgroundColour := Juce.black;
     waveformColour := Juce.green;
     cachedImage := Image.bitmap Juce.RGB 800 200;
     cursorImage := Image.bitmap Juce.RGB 3 200;
     transportLineXCoord :=
       {| StateVariable.previous := 0; StateVariable.current := 0 |};
     currentXScale := fromInt 0;
     currentMouseX := 0;
     showTransportCursor := true;
     timer := Some 40 |}.

End WithArithmetic.

End Scenario.

(* ================================================================== *)
(** ** Utility functions (utility/dRowAudio_Utility.h) *)

(** *** Arrays

    An array is the list of its elements; an access outside it is
    undefined. *)
Module Arrays.

(** How a loop over an array ends: with the array as the loop left it, in
    undefined behaviour, or, for the bounded loops below, without having
    come to its end. *)
Inductive Result (A : Type) : Type :=
| Finished (a : A)
| Undefined
| OutOfFuel.

Arguments Finished {A} a.
Arguments Undefined {A}.
Arguments OutOfFuel {A}.

Section WithElements.

Context {T : Type}.

(** [array[i]], read. *)
Definition load (array : list T) (i : Z) : option T :=
  if 0 <=? i then nth_error array (Z.to_nat i) else None.

Fixpoint store_at (array : list T) (n : nat) (v : T) : option (list T) :=
  match array, n with
  | [], _ => None
  | _ :: rest, O => Some (v :: rest)
  | x :: rest, S n' =>
      match store_at rest n' v with
      | Some rest' => Some (x :: rest')
      | None => None
      end
  end.

(** [array[i] = v]. *)
Definition store (array : list T) (i : Z) (v : T) : option (list T) :=
  if 0 <=? i then store_at array (Z.to_nat i) v else None.

(** The body of the reversing loops:
    [swap = array[a]; array[a] = array[length]; array[length] = swap;] *)
Definition exchange (array : list T) (a length : Z) : option (list T) :=
  match load array a with
  | Some swap =>
      match load array length with
      | Some last =>
          match store array a last with
          | Some array' => store array' length swap
          | None => None
          end
      | None => None
      end
  | None => None
  end.

(** [for (...; a < --length; a++)] from the test on: [length] is first
    decremented, which is undefined below the least [int]. *)
Fixpoint reverseArray_from (fuel : nat) (array : list T) (a length : Z)
  : Result (list T) :=
  if in_int (length - 1)
  then
    let length := length - 1 in
    if a <? length
    then
      match fuel with
      | O => OutOfFuel
      | S fuel' =>
          match exchange array a length with
          | Some array' => reverseArray_from fuel' array' (a + 1) length
          | None => Undefined
          end
      end
    else Finished array
  else Undefined.

(** [reverseArray (array, length)].  The loop is given as many rounds as
    [length] counts, more than it can use. *)
Definition reverseArray (array : list T) (length : Z) : Result (list T) :=
  reverseArray_from (Z.to_nat length) array 0 length.

(** [reverseTwoArrays] is handed two pointers, and nothing keeps them
    apart: they may point into one array, or be the same pointer.  So the
    two arrays are given as places in one [memory], the elements the
    pointers can reach: [array1] and [array2] are the indices of their first
    elements, and [array1[i]] is the element of [memory] at [array1 + i].
    Each round exchanges in [array1], then in [array2]. *)
Fixpoint reverseTwoArrays_from (fuel : nat) (memory : list T)
         (array1 array2 : Z) (a length : Z) : Result (list T) :=
  if in_int (length - 1)
  then
    let length := length - 1 in
    if a <? length
    then
      match fuel with
      | O => OutOfFuel
      | S fuel' =>
          match exchange memory (array1 + a) (array1 + length) with
          | Some memory' =>
              match exchange memory' (array2 + a) (array2 + length) with
              | Some memory'' =>
                  reverseTwoArrays_from fuel' memory'' array1 array2
                                        (a + 1) length
              | None => Undefined
              end
          | None => Undefined
          end
      end
    else Finished memory
  else Undefined.

(** [reverseTwoArrays (array1, array2, length)], on the memory the two
    pointers point into. *)
Definition reverseTwoArrays (memory : list T) (array1 array2 : Z)
           (length : Z) : Result (list T) :=
  reverseTwoArrays_from (Z.to_nat length) memory array1 array2 0 length.

End WithElements.

End Arrays.

(** *** Strings

    The part of the toolkit's [String] the utility functions use: a string
    is the list of its characters; the operations are those of the class,
    by their documented behaviour. *)
Module JuceString.

Import Stdlib.Strings.Ascii.

Definition t : Type := list ascii.

Definition empty : t := [].

Definition literal (s : Stdlib.Strings.String.string) : t :=
  Stdlib.Strings.String.list_ascii_of_string s.

Definition char_eqb (c d : ascii) : bool := Ascii.eqb c d.

Definition minus : ascii := "-"%char.

Definition slash : ascii := "/"%char.

(** [startsWith (other)]. *)
Fixpoint startsWith (s other : t) : bool :=
  match other, s with
  | [], _ => true
  | _ :: _, [] => false
  | d :: other', c :: s' => char_eqb c d && startsWith s' other'
  end.

(** [substring (start)]: the string from [start] on, all of it when
    [start] is 0 or negative. *)
Definition substringFrom (s : t) (start : Z) : t :=
  if start <=? 0 then s else skipn (Z.to_nat start) s.

(** [substring (start, end)]: the characters from [start], taken as 0 when
    negative, up to but without [end]; what lies past the end of the string
    is left out. *)
Definition substring (s : t) (start end_ : Z) : t :=
  let start := if start <? 0 then 0 else start in
  if end_ <=? start then empty
  else firstn (Z.to_nat (end_ - start)) (skipn (Z.to_nat start) s).

(** The place of the first occurrence of [other] in [s], or -1. *)
Fixpoint find (s other : t) : Z :=
  if startsWith s other then 0
  else
    match s with
    | [] => -1
    | _ :: rest =>
        let found := find rest other in
        if found <? 0 then -1 else found + 1
    end.

(** [indexOf (startIndex, other)]: the search starts [startIndex]
    characters into the string. *)
Definition indexOf (s : t) (startIndex : Z) (other : t) : Z :=
  match other with
  | [] => -1
  | _ :: _ =>
      if Z.of_nat (List.length s) <? startIndex then -1
      else
        let found := find (skipn (Z.to_nat startIndex) s) other in
        if 0 <=? found then found + startIndex else found
  end.

Definition isWhitespace (c : ascii) : bool :=
  let n := Z.of_nat (nat_of_ascii c) in
  (n =? 32) || ((9 <=? n) && (n <=? 13)).

Definition digitValue (c : ascii) : option Z :=
  let n := Z.of_nat (nat_of_ascii c) in
  if (48 <=? n) && (n <=? 57) then Some (n - 48) else None.

Fixpoint skipWhitespace (s : t) : t :=
  match s with
  | c :: rest => if isWhitespace c then skipWhitespace rest else s
  | [] => []
  end.

(** The digits at the front of [s], read after the value [v]. *)
Fixpoint readDigits (v : Z) (s : t) : Z :=
  match s with
  | c :: rest =>
      match digitValue c with
      | Some d => readDigits (v * 10 + d) rest
      | None => v
      end
  | [] => v
  end.

(** [getIntValue ()]: leading white space is skipped, a minus sign is
    taken, and digits are read up to the first character that is none.
    The value is kept in [Z]: the strings it is applied to below have four
    characters at most. *)
Definition getIntValue (s : t) : Z :=
  match skipWhitespace s with
  | c :: rest =>
      if char_eqb c minus then - readDigits 0 rest
      else readDigits 0 (c :: rest)
  | [] => 0
  end.

End JuceString.

(** *** Dates *)

(** What [parseITunesDateString] hands to the constructor of [Time]. *)
Record TimeArguments : Type := {
  year : Z;
  month : Z;
  day : Z;
  hours : Z;
  minutes : Z;
  seconds : Z;
  milliseconds : Z;
  useLocalTime : bool
}.

Definition parseITunesDateString (dateString : JuceString.t)
  : TimeArguments :=
  let year := JuceString.getIntValue (JuceString.substring dateString 0 4) in
  let month :=
    JuceString.getIntValue (JuceString.substring dateString 5 7) - 1 in
  let day := JuceString.getIntValue (JuceString.substring dateString 8 10) in
  let hours :=
    JuceString.getIntValue (JuceString.substring dateString 11 13) in
  let minutes :=
    JuceString.getIntValue (JuceString.substring dateString 14 16) in
  let seconds :=
    JuceString.getIntValue (JuceString.substring dateString 17 19) in
  let milliseconds := 0 in
  let useLocalTime := true in
  {| year := year;
     month := month;
     day := day;
     hours := hours;
     minutes := minutes;
     seconds := seconds;
     milliseconds := milliseconds;
     useLocalTime := useLocalTime |}.

(** The character of a decimal digit, and the number a list of digits
    writes. *)
Definition digitChar (d : nat) : Ascii.ascii := Ascii.ascii_of_nat (48 + d).

Definition number (ds : list nat) : Z :=
  fold_left (fun v d => v * 10 + Z.of_nat d) ds 0.

(** *** Local file addresses *)

Section FileProtocol.

Import Stdlib.Strings.String.
Local Open Scope string_scope.

(** The platform the header is compiled for, and [URL::removeEscapeChars],
    which belongs to the toolkit. *)
Variable JUCE_WINDOWS : bool.
Variable removeEscapeChars : JuceString.t -> JuceString.t.

Definition stripFileProtocolForLocal (pathToStrip : JuceString.t)
  : JuceString.t :=
  if JuceString.startsWith pathToStrip
                           (JuceString.literal "file://localhost")
  then
    let temp :=
      if JUCE_WINDOWS
      then JuceString.substringFrom
             pathToStrip
             (JuceString.indexOf pathToStrip 7 (JuceString.literal "/") + 1)
      else JuceString.substringFrom
             pathToStrip
             (JuceString.indexOf pathToStrip 7 (JuceString.literal "/")) in
    removeEscapeChars temp
  else JuceString.empty.

End FileProtocol.

(* ================================================================== *)
(** ** Further vocabulary for the component *)

Section MoreVocabulary.

Context {D : Type} {DD : Double D}.

(** The calls that come from the mouse. *)
Definition from_mouse (c : Call D) : bool :=
  match c with
  | CallMouseDown _ => true
  | CallMouseUp _ => true
  | CallMouseDrag _ => true
  | _ => false
  end.

(** The rectangle at [(x, y)] of size [w] by [h] lies inside the one at
    [(ax, ay)] of size [aw] by [ah]. *)
Definition inside (x y w h ax ay aw ah : Z) : Prop :=
  ax <= x /\ x + w <= ax + aw /\ ay <= y /\ y + h <= ay + ah.

(** The component listens to the same source. *)
Definition same_source (st st' : WaveDisplay D) : Prop :=
  audioThumbnailImage st' = audioThumbnailImage st.

(** The zoom ratio does not change. *)
Definition same_zoom (st st' : WaveDisplay D) : Prop :=
  zoomRatio st' = zoomRatio st.

(** The sample rate does not change. *)
Definition same_rate (st st' : WaveDisplay D) : Prop :=
  currentSampleRate st' = currentSampleRate st.

(** The zoom ratio passes the test of [setZoomRatio]. *)
Definition zoom_in_range (st : WaveDisplay D) : Prop :=
  (zoomRatio st <? fromInt 0)%dbl = false
  /\ (zoomRatio st >? fromInt 10000)%dbl = false.

End MoreVocabulary.

(* ================================================================== *)
(** ** Running computations *)

Section Frames.

Context {D : Type} {DD : Double D}.

Variable R : WaveDisplay D -> WaveDisplay D -> Prop.
Hypothesis R_refl : forall st, R st st.
Hypothesis R_trans : forall a b c, R a b -> R b c -> R a c.

Lemma respects_ret {A : Type} (a : A) : respects R (ret a).
Proof. intros st a' st' H. inversion H. apply R_refl. Qed.

Lemma respects_bind {A B : Type} (c : Comp D A) (k : A -> Comp D B) :
  respects R c -> (forall a, respects R (k a)) -> respects R (bind c k).
Proof.
  intros Hc Hk st b st'. unfold bind.
  destruct (c st) as [log [[a st1]|]] eqn:E; simpl; [|discriminate].
  intro H. apply R_trans with st1.
  - apply (Hc st a). rewrite E. reflexivity.
  - apply (Hk a st1 b). exact H.
Qed.

Lemma respects_get : respects R get.
Proof. intros st a st' H. inversion H. apply R_refl. Qed.

Lemma respects_emit (e : Effect D) : respects R (emit e).
Proof. intros st a st' H. inversion H. apply R_refl. Qed.

Lemma respects_undefined {A : Type} : respects R (@undefined D A).
Proof. intros st a st' H. discriminate. Qed.

Lemma respects_defined {A : Type} (o : option A) : respects R (defined o).
Proof. destruct o; [apply respects_ret | apply respects_undefined]. Qed.

Lemma respects_truncate (x : D) : respects R (truncate x).
Proof. apply respects_defined. Qed.

Lemma respects_int_sub (a b : Z) : respects R (int_sub a b).
Proof.
  unfold int_sub. destruct (in_int (a - b));
    [apply respects_ret | apply respects_undefined].
Qed.

Lemma respects_divide (a b : D) : respects R (divide a b).
Proof.
  unfold divide. apply respects_bind; intros;
    [apply respects_emit | apply respects_ret].
Qed.

Lemma respects_modify (f : WaveDisplay D -> WaveDisplay D) :
  (forall st, R st (f st)) -> respects R (modify f).
Proof. intros Hf st a st' H. inversion H. apply Hf. Qed.

Lemma respects_if {A : Type} (b : bool) (c1 c2 : Comp D A) :
  respects R c1 -> respects R c2 -> respects R (if b then c1 else c2).
Proof. destruct b; auto. Qed.

End Frames.

(** Steps of a frame proof: split the computation along its binds and
    branches; what is left asks of a field update that it keeps the
    relation. *)
Ltac frame_step :=
  first
    [ apply respects_truncate
    | apply respects_int_sub
    | apply respects_divide
    | apply respects_bind
    | apply respects_if
    | apply respects_ret
    | apply respects_get
    | apply respects_emit
    | apply respects_undefined
    | apply respects_modify ];
  try assumption; intros.

Ltac frame := repeat frame_step.

(* ================================================================== *)
(** ** Outcomes of composite computations *)

Section Outcomes.

Context {D : Type} {DD : Double D}.

Lemma final_bind {A B : Type} (c : Comp D A) (k : A -> Comp D B) st st' :
  final (bind c k st) = Some st' ->
  exists a st1, snd (c st) = Some (a, st1) /\ final (k a st1) = Some st'.
Proof.
  unfold final, bind.
  destruct (c st) as [log [[a st1]|]]; simpl; [|discriminate].
  intro H. exists a, st1. split; [reflexivity | exact H].
Qed.

Lemma final_respects {A : Type} (R : WaveDisplay D -> WaveDisplay D -> Prop)
      (c : Comp D A) st st' :
  respects R c -> final (c st) = Some st' -> R st st'.
Proof.
  unfold final. intros Hc H.
  destruct (snd (c st)) as [[a st1]|] eqn:E; [|discriminate].
  inversion H; subst. apply (Hc st a). exact E.
Qed.

End Outcomes.

(** The member functions, unfolded down to the monad's operations. *)
Ltac members :=
  cbn [serve];
  unfold setZoomRatio, setStartOffsetRatio, setVerticalZoomRatio,
    setCursorDisplayed, setBackgroundColour, setWaveformColour, resized,
    paint, timerCallback, imageUpdated, imageFinished, resized, mouseDown,
    mouseUp, mouseDrag, repaint, repaintArea, startTimer, stopTimer.

(* ================================================================== *)
(** ** The poller and the cursor flag *)

Section Poller.

Context {D : Type} {DD : Double D}.

Lemma same_poller_refl : forall st : WaveDisplay D, same_poller st st.
Proof. intro st. split; reflexivity. Qed.

Lemma same_poller_trans :
  forall a b c : WaveDisplay D,
    same_poller a b -> same_poller b c -> same_poller a c.
Proof. intros a b c [H1 H2] [H3 H4]. split; congruence. Qed.

(** Only [setCursorDisplayed] and [imageChanged] touch the timer or the
    cursor flag. *)
Lemma serve_same_poller (host : Host D) (c : Call D) :
  drives_poller c = false -> respects (@same_poller D) (serve host c).
Proof.
  intro Hc.
  pose proof same_poller_refl as Hr. pose proof same_poller_trans as Ht.
  destruct c; try discriminate; members; frame; split; reflexivity.
Qed.

(** What [setCursorDisplayed] does, in full. *)
Lemma setCursorDisplayed_run (b : bool) (st : WaveDisplay D) :
  setCursorDisplayed b st =
  ([], Some (tt, set_timer (if b then Some 40 else None)
                           (set_showTransportCursor b st))).
Proof. destruct b; reflexivity. Qed.

(** [imageChanged] never clears the timer and never touches the cursor
    flag; when it sets the timer, the cursor is shown. *)
Lemma imageChanged_poller (host : Host D) (p : Ptr)
      (st st' : WaveDisplay D) :
  final (imageChanged host p st) = Some st' ->
  showTransportCursor st' = showTransportCursor st
  /\ (timer st' = timer st
      \/ (timer st' = Some 40 /\ showTransportCursor st' = true)).
Proof.
  unfold imageChanged, bind, get, final. cbn.
  destruct (p =? audioThumbnailImage st); cbn.
  2:{ intro H. inversion H. auto. }
  destruct (getAudioFormatReaderSource (audioFilePlayer host)) as [[[r|]]|];
    cbn; try (intro H; inversion H; cbn; auto).
  revert H. destruct (dlt (fromInt 0) (sampleRate r)); cbn.
  - destruct (showTransportCursor st) eqn:E; cbn;
      intro H; inversion H; cbn; auto.
  - intro H; inversion H; cbn; auto.
Qed.

Lemma serve_poller (host : Host D) (c : Call D) (st st' : WaveDisplay D) :
  poller_follows_cursor st ->
  final (serve host c st) = Some st' ->
  poller_follows_cursor st'.
Proof.
  intros Hinv Hrun.
  assert (Hframe : same_poller st st' -> poller_follows_cursor st').
  { intros [Ht Hs]. unfold poller_follows_cursor in *.
    rewrite Ht, Hs. exact Hinv. }
  destruct (drives_poller c) eqn:Hc.
  - destruct c; try discriminate; cbn [serve] in Hrun.
    + rewrite setCursorDisplayed_run in Hrun. inversion Hrun.
      unfold poller_follows_cursor.
      destruct shoudldDisplayCursor; cbn; [auto | congruence].
    + apply imageChanged_poller in Hrun.
      destruct Hrun as [Hs [Ht | [Ht Hshow]]].
      * apply Hframe. split; assumption.
      * unfold poller_follows_cursor. auto.
  - apply Hframe.
    apply (final_respects _ _ _ _ (serve_same_poller host c Hc) Hrun).
Qed.

Lemma run_poller (history : list (Host D * Call D)) :
  forall st st',
    poller_follows_cursor st ->
    final (run history st) = Some st' ->
    poller_follows_cursor st'.
Proof.
  induction history as [|[host c] rest IH]; intros st st' Hinv Hrun.
  - cbn in Hrun. inversion Hrun; subst. exact Hinv.
  - cbn [run] in Hrun. apply final_bind in Hrun.
    destruct Hrun as [a [st1 [Hstep Hrest]]].
    apply (IH st1); [|exact Hrest].
    apply (serve_poller host c st); [exact Hinv|].
    unfold final. rewrite Hstep. reflexivity.
Qed.

(** C1, amended: over every history of calls from construction on, the
    poller runs only while the cursor is shown, and then with a period of
    40 ms; the length of the file plays no part.  In whatever state,
    [setCursorDisplayed (true)] leaves the poller running and
    [setCursorDisplayed (false)] leaves it stopped. *)
Theorem poller_runs_only_with_cursor :
  forall (source : Ptr) (u : Uninitialised D)
         (history : list (Host D * Call D)) (st : WaveDisplay D),
    final (run history (snd (construct source u))) = Some st ->
    poller_follows_cursor st
    /\ (exists st', setCursorDisplayed true st = ([], Some (tt, st'))
                    /\ timer st' = Some 40
                    /\ showTransportCursor st' = true)
    /\ (exists st', setCursorDisplayed false st = ([], Some (tt, st'))
                    /\ timer st' = None
                    /\ showTransportCursor st' = false).
Proof.
  intros source u history st Hrun. split; [|split].
  - apply (run_poller history (snd (construct source u))); [|exact Hrun].
    unfold poller_follows_cursor. cbn. congruence.
  - eexists. rewrite setCursorDisplayed_run. repeat split.
  - eexists. rewrite setCursorDisplayed_run. repeat split.
Qed.

(** C5, amended: an image-changed notification from the component's own
    source that finds no usable reader resets the sample rate to 44100 and
    the file length to 0 and drops the cached image; the poller is left as
    it was, running or not. *)
Theorem imageChanged_without_reader :
  forall (host : Host D) (st : WaveDisplay D),
    usableReader host = None ->
    exists st',
      imageChanged host (audioThumbnailImage st) st
      = ([Divide (fromInt 1) (fromInt 0)], Some (tt, st'))
      /\ currentSampleRate st' = fromInt 44100
      /\ fileLength st' = fromInt 0
      /\ cachedImage st' = Image.null
      /\ timer st' = timer st
      /\ showTransportCursor st' = showTransportCursor st.
Proof.
  intros host st Hnone.
  unfold imageChanged, usableReader, bind, get in *. cbn.
  rewrite Z.eqb_refl. cbn.
  destruct (getAudioFormatReaderSource (audioFilePlayer host)) as [[[r|]]|];
    cbn in *; try (eexists; repeat split; fail).
  destruct (dlt (fromInt 0) (sampleRate r)); [discriminate|].
  cbn. eexists; repeat split.
Qed.

End Poller.

(* ================================================================== *)
(** ** Images *)

Lemma jmax_is_max (a b : Z) : Juce.jmax a b = Z.max a b.
Proof.
  unfold Juce.jmax. destruct (Z.ltb_spec a b); lia.
Qed.

Lemma rescaled_dimensions (img : Image.t) (w h : Z) :
  Image.isValid img = true ->
  Image.getWidth (Image.rescaled img w h) = w
  /\ Image.getHeight (Image.rescaled img w h) = h.
Proof.
  destruct img as [|f w0 h0]; cbn; [discriminate|]. intros _.
  destruct (Z.eqb_spec w0 w); destruct (Z.eqb_spec h0 h); cbn; auto.
Qed.

(* ================================================================== *)
(** ** Notifications and the source they name *)

(** C10, amended: an image-changed notification that names another source
    than the component's own changes nothing and calls nothing;
    image-updated and image-finished do not look at the source they are
    given.  Whichever it is, image-updated takes the thumbnail's current
    image as the cached image and asks for a repaint; image-finished makes
    the cursor image anew, 3 pixels wide and as high as the viewport or 1
    pixel high, and makes the cached image anew, the thumbnail's image
    rescaled to the viewport, only if the component's own thumbnail has
    finished loading: if it has not, the cached image stays the one it
    was.  Image-finished changes nothing else and calls nothing. *)
Theorem notifications_and_their_source :
  forall (D : Type) (DD : Double D)
         (host : Host D) (st : WaveDisplay D) (p : Ptr),
    p <> audioThumbnailImage st ->
    imageChanged host p st = ([], Some (tt, st))
    /\ (forall q : Ptr,
          imageUpdated host q st
          = ([Repaint],
             Some (tt, set_cachedImage (getImage (thumbnail host)) st)))
    /\ (forall q : Ptr,
          let glyph :=
            Image.bitmap Juce.RGB 3 (Z.max 1 (getHeight host)) in
          imageFinished host q st
          = ([],
             Some (tt,
                   if hasFinishedLoading (thumbnail host)
                   then set_cachedImage
                          (Image.rescaled (getImage (thumbnail host))
                                          (getWidth host) (getHeight host))
                          (set_cursorImage glyph st)
                   else set_cursorImage glyph st))).
Proof.
  intros D DD host st p Hp.
  apply Z.eqb_neq in Hp.
  split; [|split].
  - unfold imageChanged, bind, get. cbn. rewrite Hp. reflexivity.
  - intro q. reflexivity.
  - intros q glyph. subst glyph. rewrite <- jmax_is_max.
    unfold imageFinished, resized, bind, modify.
    destruct (hasFinishedLoading (thumbnail host)); reflexivity.
Qed.

(* ================================================================== *)
(** ** Resizing *)

(** C8, amended: after every resize, whatever the viewport and whether or
    not the source has finished loading, the cursor image is 3 pixels wide
    and max (1, viewport height) high: as high as the viewport when that is
    at least 1, and 1 pixel high otherwise.  If the source has finished
    loading and holds an image, and the viewport has a width and a height
    of at least 1, the cached image has the size of the viewport; if the
    source has not finished loading, the cached image is left as it was. *)
Theorem resized_images :
  forall (D : Type) (DD : Double D) (host : Host D) (st : WaveDisplay D),
    exists st',
      resized host st = ([], Some (tt, st'))
      /\ Image.getWidth (cursorImage st') = 3
      /\ Image.getHeight (cursorImage st') = Z.max 1 (getHeight host)
      /\ (1 <= getHeight host ->
          Image.getHeight (cursorImage st') = getHeight host)
      /\ (getHeight host < 1 -> Image.getHeight (cursorImage st') = 1)
      /\ (hasFinishedLoading (thumbnail host) = true ->
          Image.isValid (getImage (thumbnail host)) = true ->
          1 <= getWidth host ->
          1 <= getHeight host ->
          Image.getWidth (cachedImage st') = getWidth host
          /\ Image.getHeight (cachedImage st') = getHeight host)
      /\ (hasFinishedLoading (thumbnail host) = false ->
          cachedImage st' = cachedImage st).
Proof.
  intros D DD host st.
  unfold resized, bind, modify.
  destruct (hasFinishedLoading (thumbnail host)); cbn;
    (eexists; split; [reflexivity|]); cbn; rewrite jmax_is_max;
    (split; [reflexivity|]); (split; [reflexivity|]);
    (split; [lia|]); (split; [lia|]); split;
    try discriminate; try reflexivity.
  intros _ Hvalid Hw Hh. unfold Image.duplicateIfShared.
  apply rescaled_dimensions. exact Hvalid.
Qed.

(* ================================================================== *)
(** ** The file length and its reciprocal *)

Section Reciprocal.

Context {D : Type} {DD : Double D}.

Lemma same_length_refl : forall st : WaveDisplay D, same_length st st.
Proof. intro st. split; reflexivity. Qed.

Lemma same_length_trans :
  forall a b c : WaveDisplay D,
    same_length a b -> same_length b c -> same_length a c.
Proof. intros a b c [H1 H2] [H3 H4]. split; congruence. Qed.

(** Only [imageChanged] touches the file length or its reciprocal. *)
Lemma serve_same_length (host : Host D) (c : Call D) :
  (forall p, c <> CallImageChanged p) ->
  respects (@same_length D) (serve host c).
Proof.
  intro Hc.
  pose proof same_length_refl as Hr. pose proof same_length_trans as Ht.
  destruct c; try (exfalso; eapply Hc; reflexivity);
    members; frame; split; reflexivity.
Qed.

(** [imageChanged] leaves the reciprocal it computed from the length it
    stored, or leaves both alone. *)
Lemma imageChanged_reciprocal (host : Host D) (p : Ptr)
      (st st' : WaveDisplay D) :
  final (imageChanged host p st) = Some st' ->
  reciprocal_stored st' \/ same_length st st'.
Proof.
  unfold imageChanged, divide, startTimer, bind, get, emit, modify, ret,
    final, reciprocal_stored.
  cbn.
  destruct (p =? audioThumbnailImage st); cbn.
  2:{ intro H. inversion H. right. split; reflexivity. }
  destruct (getAudioFormatReaderSource (audioFilePlayer host)) as [[[r|]]|];
    cbn; try (intro H; inversion H; cbn; auto).
  revert H. destruct (dlt (fromInt 0) (sampleRate r)); cbn.
  - destruct (showTransportCursor st) eqn:E; cbn;
      intro H; inversion H; cbn; auto.
  - intro H; inversion H; cbn; auto.
Qed.

(** Once the reciprocal has been computed from the file length, it stays
    so over every history. *)
Lemma reciprocal_kept (history : list (Host D * Call D)) :
  forall st st',
    reciprocal_stored st ->
    final (run history st) = Some st' ->
    reciprocal_stored st'.
Proof.
  induction history as [|[host c] rest IH]; intros st st' Hinv Hrun.
  - cbn in Hrun. inversion Hrun; subst. exact Hinv.
  - cbn [run] in Hrun. apply final_bind in Hrun.
    destruct Hrun as [a [st1 [Hstep Hrest]]].
    apply (IH st1); [|exact Hrest].
    assert (Hfinal : final (serve host c st) = Some st1).
    { unfold final. rewrite Hstep. reflexivity. }
    assert (Hframe : same_length st st1 -> reciprocal_stored st1).
    { intros [HL Hr]. unfold reciprocal_stored in *. congruence. }
    destruct c;
      try (apply Hframe;
           refine (final_respects _ _ _ _ (serve_same_length host _ _) Hfinal);
           intros; discriminate).
    cbn [serve] in Hfinal. apply imageChanged_reciprocal in Hfinal.
    destruct Hfinal as [H|H]; [exact H | exact (Hframe H)].
Qed.

End Reciprocal.

(* ================================================================== *)
(** ** The poller's tick *)

Section Tick.

Context {D : Type} {DD : Double D}.

(** A tick whose conversions are defined, in full. *)
Lemma timerCallback_run (host : Host D) (st : WaveDisplay D) (x1 : Z) :
  let x0 := StateVariable.getCurrent (transportLineXCoord st) in
  cursorPixel host st = Some x1 ->
  (x1 <> x0 -> in_int (x0 - 2) = true /\ in_int (x1 - 2) = true) ->
  timerCallback host waveformUpdated st
  = (Divide (fromInt (getWidth host) * oneOverFileLength st
             * getCurrentPosition (audioFilePlayer host))%dbl
            (zoomRatio st)
       :: (if x1 =? x0 then []
           else [RepaintArea (x0 - 2) 0 5 (getHeight host);
                 RepaintArea (x1 - 2) 0 5 (getHeight host)]),
     Some (tt, set_transportLineXCoord
                 (StateVariable.assign (transportLineXCoord st) x1) st)).
Proof.
  intros x0 Hpixel Hrange. subst x0.
  unfold cursorPixel in Hpixel.
  unfold timerCallback, truncate, divide, bind, get, emit, modify. cbn.
  destruct (toInt (fromInt (getWidth host) * startOffsetRatio st)%dbl)
    as [startPixel|]; [|discriminate].
  cbn. rewrite Hpixel. cbn.
  unfold StateVariable.areEqual, StateVariable.getCurrent in *. cbn.
  rewrite (Z.eqb_sym (StateVariable.current (transportLineXCoord st)) x1).
  destruct (Z.eqb_spec x1 (StateVariable.current (transportLineXCoord st)))
    as [Heq|Hne]; cbn; [reflexivity|].
  destruct (Hrange Hne) as [H0 H1].
  unfold int_sub, repaintArea, bind, emit, StateVariable.getPrevious,
    StateVariable.getCurrent. cbn.
  rewrite H0. cbn. rewrite H1. cbn. reflexivity.
Qed.

(** C6: a tick that computes the pixel the cursor already has asks for no
    redraw; one that moves the cursor from [x0] to [x1] asks for exactly two
    areas, 5 pixels wide and as high as the viewport, starting at [x0 - 2]
    and at [x1 - 2]; it never asks for the whole component to be redrawn. *)
Theorem tick_redraws_two_strips :
  forall (host : Host D) (st : WaveDisplay D) (x1 : Z),
    let x0 := StateVariable.getCurrent (transportLineXCoord st) in
    cursorPixel host st = Some x1 ->
    (x1 <> x0 -> in_int (x0 - 2) = true /\ in_int (x1 - 2) = true) ->
    exists st',
      final (timerCallback host waveformUpdated st) = Some st'
      /\ StateVariable.getPrevious (transportLineXCoord st') = x0
      /\ StateVariable.getCurrent (transportLineXCoord st') = x1
      /\ (x1 = x0 ->
          redraws (effects (timerCallback host waveformUpdated st)) = [])
      /\ (x1 <> x0 ->
          redraws (effects (timerCallback host waveformUpdated st))
          = [RepaintArea (x0 - 2) 0 5 (getHeight host);
             RepaintArea (x1 - 2) 0 5 (getHeight host)])
      /\ ~ In Repaint (effects (timerCallback host waveformUpdated st)).
Proof.
  intros host st x1 x0 Hpixel Hrange.
  rewrite (timerCallback_run host st x1 Hpixel Hrange).
  fold x0. eexists. split; [reflexivity|]. cbn.
  repeat split.
  - intro Heq. apply Z.eqb_eq in Heq. rewrite Heq. reflexivity.
  - intro Hne. apply Z.eqb_neq in Hne. rewrite Hne. reflexivity.
  - destruct (x1 =? x0); cbn; intuition discriminate.
Qed.

End Tick.

(* ================================================================== *)
(** ** Painting *)

Section Painting.

Context {D : Type} {DD : Double D}.

(** C3, amended: a paint whose conversions are defined draws the cached
    image once; the source rectangle starts at the image's origin, is as
    high as the image and as wide as the image's width multiplied by the
    zoom ratio, cut to an integer; it is stretched to the width of the
    viewport. *)
Theorem paint_source_region :
  forall (host : Host D) (st : WaveDisplay D)
         (startPixel startPixelY destH sourceW : Z),
    toInt (fromInt (getWidth host) * startOffsetRatio st)%dbl
    = Some startPixel ->
    toInt (fromInt (getHeight host) * half
           - verticalZoomRatio st * fromInt (getHeight host) * half)%dbl
    = Some startPixelY ->
    toInt (verticalZoomRatio st * fromInt (getHeight host))%dbl
    = Some destH ->
    toInt (fromInt (Image.getWidth (cachedImage st)) * zoomRatio st)%dbl
    = Some sourceW ->
    drawnSources (effects (paint host st))
    = [(0, 0, sourceW, Image.getHeight (cachedImage st), getWidth host)].
Proof.
  intros host st startPixel startPixelY destH sourceW H1 H2 H3 H4.
  unfold paint, truncate, bind, get, emit, effects. cbn.
  rewrite H1. cbn. rewrite H2. cbn. rewrite H3. cbn. rewrite H4. cbn.
  destruct (showTransportCursor st); cbn; [|reflexivity].
  unfold int_sub, bind.
  destruct (in_int (StateVariable.getCurrent (transportLineXCoord st) - 1));
    reflexivity.
Qed.

End Painting.

(* ================================================================== *)
(** ** Divisions *)

Section Divisions.

Context {D : Type} {DD : Double D}.

Ltac branches :=
  repeat (cbn;
          match goal with
          | |- context [match ?x with _ => _ end] =>
              lazymatch x with
              | context [match _ with _ => _ end] => fail
              | _ => destruct x eqn:?
              end
          end);
  cbn; try reflexivity; try congruence.

(** C4, amended: the divisions of the component, call by call.  None is
    guarded.  [imageChanged], told of its own source, divides 1 by the new
    file length, which is 0 when there is no usable reader; the poller
    divides by the zoom ratio a product that has the stored reciprocal as a
    factor, whatever that reciprocal is; [mouseDown] divides the file
    length by the width of the viewport; nothing else divides. *)
Theorem divisions_of_the_component :
  forall (host : Host D) (c : Call D) (st : WaveDisplay D),
    divisions (effects (serve host c st))
    = match c with
      | CallImageChanged p =>
          if p =? audioThumbnailImage st
          then [(fromInt 1,
                 match usableReader host with
                 | Some _ => getLengthInSeconds (audioFilePlayer host)
                 | None => fromInt 0
                 end)]
          else []
      | CallTimerCallback waveformUpdated =>
          match toInt (fromInt (getWidth host) * startOffsetRatio st)%dbl with
          | Some _ =>
              [((fromInt (getWidth host) * oneOverFileLength st
                 * getCurrentPosition (audioFilePlayer host))%dbl,
                zoomRatio st)]
          | None => []
          end
      | CallMouseDown _ =>
          if showTransportCursor st
          then [(fileLength st, fromInt (getWidth host))]
          else []
      | _ => []
      end.
Proof.
  intros host c st. destruct c; cbn [serve].
  - unfold setZoomRatio, bind, modify, repaint, emit, effects.
    destruct (dlt newZoomRatio (fromInt 0)),
      (dlt (fromInt 10000) newZoomRatio); reflexivity.
  - reflexivity.
  - reflexivity.
  - rewrite setCursorDisplayed_run. reflexivity.
  - reflexivity.
  - reflexivity.
  - unfold resized, ret, bind, modify, effects. branches.
  - unfold paint, truncate, int_sub, defined, ret, undefined, bind, get,
      emit, effects.
    branches.
  - destruct timerId; [|reflexivity].
    unfold timerCallback, truncate, divide, int_sub, repaintArea, defined,
      bind, get, emit, modify, effects.
    branches.

  - unfold imageChanged, usableReader, divide, startTimer, ret, bind, get, emit,
      modify, effects.
    branches.
  - reflexivity.
  - unfold imageFinished, resized, ret, bind, modify, effects. branches.
  - unfold mouseDown, truncate, divide, int_sub, repaint, defined, ret,
      undefined, bind, get, emit, modify, effects.
    branches.
  - unfold mouseUp, ret, bind, get, emit, effects. branches.
  - unfold mouseDrag, truncate, int_sub, defined, ret, undefined, bind, get,
      emit, modify, effects.
    branches.
Qed.

End Divisions.

(* ================================================================== *)
(** ** From position to pixel and back *)

Lemma Qtrunc_within_one (q : Q) :
  (inject_Z (Qtrunc q) - q < 1)%Q /\ (q - inject_Z (Qtrunc q) < 1)%Q.
Proof.
  destruct q as [n d]. unfold Qtrunc. cbn [Qnum Qden].
  pose proof (Z.quot_rem' n (Z.pos d)) as Hqr.
  assert (Hd : Z.pos d <> 0) by lia.
  pose proof (Z.rem_bound_abs n (Z.pos d) Hd) as Hrem.
  unfold Qlt, Qminus, Qplus, Qopp, inject_Z. cbn.
  split; lia.
Qed.

Lemma Q_to_int_trunc (q : Q) (z : Z) : Q_to_int q = Some z -> z = Qtrunc q.
Proof.
  unfold Q_to_int. destruct (in_int (Qtrunc q)); congruence.
Qed.

(** What a press does while the cursor is shown, in full. *)
Lemma mouseDown_run {D : Type} {DD : Double D}
      (host : Host D) (st : WaveDisplay D) (e_x startPixel : Z) :
  showTransportCursor st = true ->
  toInt (fromInt (getWidth host) * startOffsetRatio st)%dbl
  = Some startPixel ->
  in_int (e_x - startPixel) = true ->
  let scale :=
    (dquot (fileLength st) (fromInt (getWidth host)) * zoomRatio st)%dbl in
  mouseDown host e_x st
  = ([SetMouseCursor Juce.IBeamCursor;
      Divide (fileLength st) (fromInt (getWidth host));
      SetPosition (scale * fromInt (e_x - startPixel))%dbl;
      Repaint],
     Some (tt, set_currentXScale scale (set_currentMouseX e_x st))).
Proof.
  intros Hshow Hstart Hrange scale. subst scale.
  unfold mouseDown, truncate, divide, int_sub, repaint, bind, get, emit,
    modify.
  cbn. rewrite Hshow. cbn. rewrite Hstart. cbn. rewrite Hrange. cbn.
  reflexivity.
Qed.


(** In exact arithmetic, with a positive viewport width, file length and
    zoom ratio and the stored reciprocal equal to one over the file length,
    the position of the pixel is less than one pixel's worth of time away
    from the position of the player, that is, less than (file length /
    viewport width) * zoom ratio.  Applied to the coordinate before it is
    cut to an [int], the press's formula gives the position back. *)
Theorem press_on_cursor_seeks_within_a_pixel :
  forall (host : Host Q) (st : WaveDisplay Q) (startPixel x : Z),
    let w := getWidth host in
    let position := getCurrentPosition (audioFilePlayer host) in
    let x0 := StateVariable.getCurrent (transportLineXCoord st) in
    0 < w ->
    (0 < fileLength st)%Q ->
    (0 < zoomRatio st)%Q ->
    (oneOverFileLength st == 1 / fileLength st)%Q ->
    showTransportCursor st = true ->
    toInt (fromInt w * startOffsetRatio st)%dbl = Some startPixel ->
    cursorPixel host st = Some x ->
    (x <> x0 -> in_int (x0 - 2) = true /\ in_int (x - 2) = true) ->
    in_int (x - startPixel) = true ->
    exists st1 position',
      final (timerCallback host waveformUpdated st) = Some st1
      /\ StateVariable.getCurrent (transportLineXCoord st1) = x
      /\ seeks (effects (mouseDown host x st1)) = [position']
      /\ (Qabs (position' - position)
          < fileLength st / inject_Z w * zoomRatio st)%Q
      /\ (fileLength st / inject_Z w * zoomRatio st
          * (inject_Z startPixel
             + inject_Z w * oneOverFileLength st * position / zoomRatio st
             - inject_Z startPixel)
          == position)%Q.
Proof.
  intros host st startPixel x w position x0 Hw HL Hz Hinv Hshow Hstart
         Hpixel Hredraw Hrange.
  rewrite (timerCallback_run host st x Hpixel Hredraw).
  exists (set_transportLineXCoord
            (StateVariable.assign (transportLineXCoord st) x) st).
  exists (fileLength st / inject_Z w * zoomRatio st
          * inject_Z (x - startPixel))%Q.
  split; [reflexivity|]. split; [reflexivity|].
  split; [rewrite (mouseDown_run host _ x startPixel); auto|].
  assert (HwQ : (0 < inject_Z w)%Q).
  { change 0%Q with (inject_Z 0). rewrite <- Zlt_Qlt. exact Hw. }
  split.
  2:{ fold position. rewrite Hinv. field.
      repeat split; apply Qnot_eq_sym, Qlt_not_eq; assumption. }
  (* the pixel is the truncation of the exact coordinate *)
  unfold cursorPixel in Hpixel. fold w in Hpixel. rewrite Hstart in Hpixel.
  cbn in Hpixel. apply Q_to_int_trunc in Hpixel.
  fold position in Hpixel.
  set (L := fileLength st) in *. set (z := zoomRatio st) in *.
  set (q := (inject_Z startPixel
             + inject_Z w * oneOverFileLength st * position / z)%Q) in *.
  destruct (Qtrunc_within_one q) as [Hup Hdown]. rewrite <- Hpixel in *.
  set (scale := (L / inject_Z w * z)%Q).
  assert (Hscale : (0 < scale)%Q).
  { unfold scale. apply Qmult_lt_0_compat; [|exact Hz].
    apply Qlt_shift_div_l; [exact HwQ|]. rewrite Qmult_0_l. exact HL. }
  assert (Hdiff : (scale * inject_Z (x - startPixel) - position
                   == scale * (inject_Z x - q))%Q).
  { unfold q, scale. unfold Z.sub. rewrite inject_Z_plus, inject_Z_opp.
    rewrite Hinv. field. repeat split; apply Qnot_eq_sym, Qlt_not_eq;
      assumption. }
  rewrite Hdiff. apply Qabs_Qlt_condition. split.
  - nra.
  - nra.
Qed.

(* ================================================================== *)
(** ** The zoom ratio *)

(** Comparison of binary64 numbers is asymmetric. *)
Lemma SFcompare_antisym (a b : spec_float) :
  SFcompare b a = option_map CompOpp (SFcompare a b).
Proof.
  destruct a as [sa|sa| |sa ma ea], b as [sb|sb| |sb mb eb]; cbn;
    try reflexivity;
    try (destruct sa; reflexivity);
    try (destruct sb; reflexivity);
    try (destruct sa, sb; reflexivity).
  destruct sa, sb; cbn; try reflexivity.
  - rewrite (Z.compare_antisym ea eb).
    destruct (ea ?= eb) eqn:E; cbn; try reflexivity.
    rewrite (Pos.compare_cont_antisym ma mb Eq). reflexivity.
  - rewrite (Z.compare_antisym ea eb).
    destruct (ea ?= eb) eqn:E; cbn; try reflexivity.
    rewrite (Pos.compare_cont_antisym ma mb Eq). reflexivity.
Qed.

Lemma float_ltb_asym (x y : float) :
  PrimFloat.ltb x y = true -> PrimFloat.ltb y x = false.
Proof.
  rewrite !FloatAxioms.ltb_spec. unfold SFltb.
  rewrite (SFcompare_antisym (Prim2SF x) (Prim2SF y)).
  destruct (SFcompare (Prim2SF x) (Prim2SF y)) as [[]|]; cbn; congruence.
Qed.

Lemma float_leb_not_gt (x y : float) :
  PrimFloat.leb x y = true -> PrimFloat.ltb y x = false.
Proof.
  rewrite FloatAxioms.leb_spec, FloatAxioms.ltb_spec. unfold SFleb, SFltb.
  rewrite (SFcompare_antisym (Prim2SF x) (Prim2SF y)).
  destruct (SFcompare (Prim2SF x) (Prim2SF y)) as [[]|]; cbn; congruence.
Qed.

(** The range test of [setZoomRatio] in binary64: a ratio above 0 and up to
    10000 is stored as it is; a zero of either sign is stored too; a ratio
    below 0 or above 10000 is replaced by 1. *)
Lemma setZoomRatio_binary64 (z : float) (st : WaveDisplay float) :
  (PrimFloat.ltb 0 z = true -> PrimFloat.leb z 10000 = true ->
   setZoomRatio z st = ([Repaint], Some (tt, set_zoomRatio z st)))
  /\ (PrimFloat.eqb z 0 = true ->
      setZoomRatio z st = ([Repaint], Some (tt, set_zoomRatio z st))
      /\ z <> 1%float)
  /\ (PrimFloat.ltb z 0 = true \/ PrimFloat.ltb 10000 z = true ->
      setZoomRatio z st
      = ([JAssertFalse; Repaint], Some (tt, set_zoomRatio 1%float st))).
Proof.
  unfold setZoomRatio, bind, modify, repaint, emit, ret. cbn.
  change (float_of_int 0) with 0%float.
  change (float_of_int 10000) with 10000%float.
  change (float_of_int 1) with 1%float.
  split; [|split].
  - intros Hpos Hmax.
    rewrite (float_ltb_asym _ _ Hpos), (float_leb_not_gt _ _ Hmax).
    reflexivity.
  - intro Hzero. rewrite FloatAxioms.eqb_spec in Hzero.
    rewrite !FloatAxioms.ltb_spec. unfold SFeqb, SFltb in *.
    split.
    + destruct (Prim2SF z) as [s|s| |s m e]; cbn in *;
        try discriminate; try (destruct s; discriminate).
      reflexivity.
    + intro H1. subst z. vm_compute in Hzero. discriminate.
  - intros [H|H]; rewrite H; cbn; [reflexivity|].
    rewrite orb_true_r. reflexivity.
Qed.

Lemma float_zero_is_not_one : 0%float <> 1%float.
Proof.
  intro H. apply (f_equal (fun x => PrimFloat.eqb x 1)) in H.
  vm_compute in H. discriminate.
Qed.

(** C2, at the input where the code departs from it: [setZoomRatio (0.0)]
    passes the range test, which asks [newZoomRatio < 0.0], raises no
    assertion and stores 0; the stored ratio is not 1. *)
Theorem setZoomRatio_keeps_zero :
  forall st : WaveDisplay float,
    setZoomRatio 0%float st
    = ([Repaint], Some (tt, set_zoomRatio 0%float st))
    /\ zoomRatio (set_zoomRatio 0%float st) = 0%float
    /\ zoomRatio (set_zoomRatio 0%float st) <> 1%float.
Proof.
  intro st. repeat split. cbn. exact float_zero_is_not_one.
Qed.

(** The rest of the range, in exact arithmetic: a ratio from 0 to 10000 is
    stored as it is, one below 0 or above 10000 is replaced by 1. *)
Lemma setZoomRatio_exact (z : Q) (st : WaveDisplay Q) :
  ((0 <= z <= 10000)%Q ->
   setZoomRatio z st = ([Repaint], Some (tt, set_zoomRatio z st)))
  /\ ((z < 0 \/ 10000 < z)%Q ->
      setZoomRatio z st
      = ([JAssertFalse; Repaint], Some (tt, set_zoomRatio 1%Q st))).
Proof.
  unfold setZoomRatio, bind, modify, repaint, emit, ret. cbn.
  unfold Qltb, inject_Z.
  destruct (Qle_bool 0 z) eqn:E0; destruct (Qle_bool z 10000) eqn:E1; cbn;
    (split; [intros [H0 H1] | intros [H|H]]);
    try reflexivity;
    try apply Qle_bool_iff in H0; try apply Qle_bool_iff in H1;
    try apply Qle_bool_iff in E0; try apply Qle_bool_iff in E1;
    try congruence; exfalso; lra.
Qed.

(* ================================================================== *)
(** ** The scenarios, run *)

Lemma ready_reached_binary64 :
  final (run (Scenario.opening float) (Scenario.fresh float))
  = Some (Scenario.ready float).
Proof. vm_compute. reflexivity. Qed.

Lemma ready_reached_exact :
  final (run (Scenario.opening Q) (Scenario.fresh Q))
  = Some (Scenario.ready Q).
Proof. vm_compute. reflexivity. Qed.


(** *** The worked example: 800 x 200, 100 seconds, playing at 50 seconds *)

(** C9: with the viewport 800 x 200, a file of 100 seconds, no start offset
    and the playback position at 50 seconds, the poller puts the cursor at
    pixel 400 when the zoom ratio is 1 and at pixel 200 when it is 2; a
    press on pixel 400, zoom ratio 1, seeks to 50 seconds.  Computed in
    binary64. *)
Theorem cursor_at_half_of_the_file :
  let host :=
    Scenario.host float 800 200 (Scenario.playing float 100%float 50%float) in
  let ready := Scenario.ready float in
  final (run (Scenario.opening float) (Scenario.fresh float)) = Some ready
  /\ cursorPixel host ready = Some 400
  /\ (exists st', final (timerCallback host waveformUpdated ready) = Some st'
                  /\ StateVariable.getCurrent (transportLineXCoord st') = 400)
  /\ (exists st', final (run [(host, CallSetZoomRatio 2%float);
                              (host, CallTimerCallback waveformUpdated)]
                             ready) = Some st'
                  /\ zoomRatio st' = 2%float
                  /\ StateVariable.getCurrent (transportLineXCoord st') = 200)
  /\ seeks (effects (mouseDown host 400 ready)) = [50%float].
Proof.
  cbv zeta. split; [vm_compute; reflexivity|].
  split; [vm_compute; reflexivity|].
  split; [eexists; split; [vm_compute; reflexivity | reflexivity]|].
  split; [eexists; split; [vm_compute; reflexivity | split; reflexivity]|].
  vm_compute. reflexivity.
Qed.

(** *** Inputs on which the specification's reading fails *)

(** C1 as stated fails: with no file (file length 0),
    [setCursorDisplayed (true)] starts the poller all the same. *)
Lemma poller_runs_without_a_file :
  let host := Scenario.host float 800 200 (Scenario.silent float) in
  exists st,
    final (run [(host, CallImageChanged (Scenario.source));
                (host, CallSetCursorDisplayed true)]
               (Scenario.fresh float)) = Some st
    /\ fileLength st = 0%float
    /\ PrimFloat.ltb 0 (fileLength st) = false
    /\ timer st = Some 40
    /\ ~ poller_gated st.
Proof.
  cbv zeta. eexists. split; [vm_compute; reflexivity|].
  split; [reflexivity|]. split; [reflexivity|]. split; [reflexivity|].
  unfold poller_gated. cbn. intro H.
  destruct H as [_ H]; [discriminate|]. vm_compute in H. discriminate.
Qed.

(** C3 as stated fails: at zoom ratio 2 a cached image 800 pixels wide is
    sampled over 1600 pixels, its width times 2, not over 400, its width
    divided by 2. *)
Lemma paint_samples_width_times_zoom :
  let host := Scenario.host float 800 200 (Scenario.silent float) in
  let st := set_zoomRatio 2%float (Scenario.ready float) in
  Image.getWidth (cachedImage st) = 800
  /\ drawnSources (effects (paint host st)) = [(0, 0, 1600, 200, 800)]
  /\ toInt (dquot (fromInt (Image.getWidth (cachedImage st))) (zoomRatio st))
     = Some 400
  /\ 1600 <> 400.
Proof.
  cbv zeta. split; [reflexivity|]. split; [vm_compute; reflexivity|].
  split; [vm_compute; reflexivity | lia].
Qed.

(** C4 as stated fails: told that the file is gone, [imageChanged] sets the
    file length to 0 and then divides 1 by it; the reciprocal it stores is
    infinite, the poller goes on running, and its next tick multiplies by
    that reciprocal: the product is not a number and has no [int] to be
    converted to. *)
Lemma reciprocal_of_no_file :
  let host := Scenario.host float 800 200 (Scenario.silent float) in
  exists st,
    imageChanged host Scenario.source (Scenario.ready float)
    = ([Divide 1%float 0%float], Some (tt, st))
    /\ fileLength st = 0%float
    /\ oneOverFileLength st = infinity
    /\ timer st = Some 40
    /\ timerCallback host waveformUpdated st
       = ([Divide nan 1%float], None).
Proof.
  cbv zeta. eexists. split; [vm_compute; reflexivity|].
  repeat split.
Qed.

(** C5 as stated fails: the poller that was running when the file went
    away is still running afterwards. *)
Lemma poller_survives_the_file :
  let host := Scenario.host float 800 200 (Scenario.silent float) in
  timer (Scenario.ready float) = Some 40
  /\ usableReader host = None
  /\ exists st,
       final (imageChanged host Scenario.source (Scenario.ready float))
       = Some st
       /\ currentSampleRate st = 44100%float
       /\ fileLength st = 0%float
       /\ cachedImage st = Image.null
       /\ timer st = Some 40.
Proof.
  cbv zeta. split; [reflexivity|]. split; [reflexivity|].
  eexists. split; [vm_compute; reflexivity|]. repeat split.
Qed.


(** C8 as stated fails: in a viewport without width and height the cursor
    image is 1 pixel high, not 0, and the cached image is asked for with
    the viewport's own 0 x 0: nothing puts a 1 in their place. *)
Lemma resized_to_nothing :
  let host := Scenario.host float 0 0 (Scenario.silent float) in
  hasFinishedLoading (thumbnail host) = true
  /\ exists st,
       resized host (Scenario.ready float) = ([], Some (tt, st))
       /\ Image.getHeight (cursorImage st) = 1
       /\ Image.getHeight (cursorImage st) <> getHeight host
       /\ cachedImage st = Image.rescaled (getImage (thumbnail host)) 0 0
       /\ Image.getWidth (cachedImage st) = 0
       /\ Image.getHeight (cachedImage st) = 0.
Proof.
  cbv zeta. split; [reflexivity|].
  eexists. split; [vm_compute; reflexivity|]. cbn.
  repeat split. lia.
Qed.

(** C10 as stated fails: an image-finished notification that arrives while
    the component's own thumbnail is still loading does not make the cached
    image anew, whichever source it names: afterwards the cached image is
    still the 1 x 1 image of the constructor.  Only the cursor image is
    made. *)
Lemma imageFinished_before_the_image :
  let host := Scenario.loadingHost float 800 200 (Scenario.silent float) in
  let st := Scenario.fresh float in
  hasFinishedLoading (thumbnail host) = false
  /\ cachedImage st = Image.bitmap Juce.RGB 1 1
  /\ (exists st',
        imageFinished host Scenario.source st = ([], Some (tt, st'))
        /\ cachedImage st' = Image.bitmap Juce.RGB 1 1
        /\ cursorImage st' = Image.bitmap Juce.RGB 3 200)
  /\ (exists st',
        imageFinished host 7 st = ([], Some (tt, st'))
        /\ cachedImage st' = Image.bitmap Juce.RGB 1 1
        /\ cursorImage st' = Image.bitmap Juce.RGB 3 200).
Proof.
  cbv zeta. split; [reflexivity|]. split; [reflexivity|].
  split; eexists; (split; [vm_compute; reflexivity|]); split; reflexivity.
Qed.

(** In binary64 the rounding of the poller's product can cost a whole
    pixel.  In a viewport of 49 pixels on a file of 49 seconds, with the
    player at 1 second, 49 * (1 / 49) * 1 comes out below 1: the pixel is
    0, not 1, and the press on it seeks to 0 seconds, one pixel's worth of
    time away from the position. *)
Lemma rounding_costs_a_pixel :
  let host pos :=
    Scenario.host float 49 49 (Scenario.playing float 49%float pos) in
  exists st st1,
    final (run [(host 0%float, CallImageChanged Scenario.source);
                (host 0%float, CallResized)]
               (Scenario.fresh float)) = Some st
    /\ (fromInt 49 * oneOverFileLength st * 1 <? 1)%float = true
    /\ final (timerCallback (host 1%float) waveformUpdated st) = Some st1
    /\ StateVariable.getCurrent (transportLineXCoord st1) = 0
    /\ seeks (effects (mouseDown (host 1%float) 0 st1)) = [0%float]
    /\ (dquot (fileLength st) (fromInt 49) * zoomRatio st)%dbl = 1%float.
Proof.
  cbv zeta. eexists. eexists. split; [vm_compute; reflexivity|].
  split; [vm_compute; reflexivity|]. split; [vm_compute; reflexivity|].
  split; [reflexivity|]. split; vm_compute; reflexivity.
Qed.

(** *** The theorems, applied *)

Lemma poller_runs_only_with_cursor_applied :
  final (run (Scenario.opening float)
             (snd (construct Scenario.source (Scenario.garbage float))))
  = Some (Scenario.ready float)
  /\ poller_follows_cursor (Scenario.ready float).
Proof.
  split; [vm_compute; reflexivity|].
  apply (poller_runs_only_with_cursor
           Scenario.source (Scenario.garbage float)
           (Scenario.opening float) (Scenario.ready float)).
  vm_compute. reflexivity.
Defined.

Lemma paint_source_region_applied :
  let host := Scenario.host float 800 200 (Scenario.silent float) in
  let st := set_zoomRatio 2%float (Scenario.ready float) in
  drawnSources (effects (paint host st)) = [(0, 0, 1600, 200, 800)].
Proof.
  cbv zeta.
  apply (paint_source_region
           (Scenario.host float 800 200 (Scenario.silent float))
           (set_zoomRatio 2%float (Scenario.ready float))
           0 0 200 1600);
    vm_compute; reflexivity.
Defined.

Lemma imageChanged_without_reader_applied :
  let host := Scenario.host float 800 200 (Scenario.silent float) in
  usableReader host = None
  /\ exists st',
       imageChanged host (audioThumbnailImage (Scenario.ready float))
                    (Scenario.ready float)
       = ([Divide (fromInt 1) (fromInt 0)], Some (tt, st'))
       /\ currentSampleRate st' = fromInt 44100
       /\ fileLength st' = fromInt 0
       /\ cachedImage st' = Image.null
       /\ timer st' = timer (Scenario.ready float)
       /\ showTransportCursor st'
          = showTransportCursor (Scenario.ready float).
Proof.
  cbv zeta. split; [reflexivity|].
  apply (imageChanged_without_reader
           (Scenario.host float 800 200 (Scenario.silent float))
           (Scenario.ready float)).
  reflexivity.
Defined.

Lemma tick_redraws_two_strips_applied :
  let host :=
    Scenario.host float 800 200 (Scenario.playing float 100%float 50%float) in
  cursorPixel host (Scenario.ready float) = Some 400
  /\ redraws (effects (timerCallback host waveformUpdated
                                     (Scenario.ready float)))
     = [RepaintArea (-2) 0 5 200; RepaintArea 398 0 5 200].
Proof.
  cbv zeta. split; [vm_compute; reflexivity|].
  destruct (tick_redraws_two_strips
              (Scenario.host float 800 200
                             (Scenario.playing float 100%float 50%float))
              (Scenario.ready float) 400)
    as [st' [_ [_ [_ [_ [Hmoved _]]]]]].
  - vm_compute. reflexivity.
  - intros _. split; reflexivity.
  - apply Hmoved. cbn. lia.
Defined.

Lemma press_on_cursor_seeks_within_a_pixel_applied :
  let host :=
    Scenario.host Q 800 200 (Scenario.playing Q 100%Q (1001 # 20)%Q) in
  cursorPixel host (Scenario.ready Q) = Some 400
  /\ exists st1 position',
       final (timerCallback host waveformUpdated (Scenario.ready Q))
       = Some st1
       /\ StateVariable.getCurrent (transportLineXCoord st1) = 400
       /\ seeks (effects (mouseDown host 400 st1)) = [position']
       /\ (Qabs (position' - (1001 # 20)) < 100 / inject_Z 800 * 1)%Q
       /\ (100 / inject_Z 800 * 1
           * (inject_Z 0 + inject_Z 800 * (1 / 100) * (1001 # 20) / 1
              - inject_Z 0)
           == 1001 # 20)%Q.
Proof.
  cbv zeta. split; [vm_compute; reflexivity|].
  refine (press_on_cursor_seeks_within_a_pixel
            (Scenario.host Q 800 200 (Scenario.playing Q 100%Q (1001 # 20)%Q))
            (Scenario.ready Q) 0 400 _ _ _ _ _ _ _ _ _).
  - reflexivity.
  - vm_compute. reflexivity.
  - vm_compute. reflexivity.
  - vm_compute. reflexivity.
  - reflexivity.
  - vm_compute. reflexivity.
  - vm_compute. reflexivity.
  - intros _. split; reflexivity.
  - reflexivity.
Defined.


Lemma resized_images_applied :
  (let host := Scenario.host float 1024 300 (Scenario.silent float) in
   exists st',
     resized host (Scenario.ready float) = ([], Some (tt, st'))
     /\ Image.getWidth (cursorImage st') = 3
     /\ Image.getHeight (cursorImage st') = 300
     /\ Image.getWidth (cachedImage st') = 1024
     /\ Image.getHeight (cachedImage st') = 300)
  /\ (let host := Scenario.loadingHost float 1024 0 (Scenario.silent float) in
      exists st',
        resized host (Scenario.fresh float) = ([], Some (tt, st'))
        /\ Image.getWidth (cursorImage st') = 3
        /\ Image.getHeight (cursorImage st') = 1
        /\ cachedImage st' = Image.bitmap Juce.RGB 1 1).
Proof.
  cbv zeta. split.
  - destruct (resized_images float Binary64
                (Scenario.host float 1024 300 (Scenario.silent float))
                (Scenario.ready float))
      as [st' [Hrun [Hwidth [_ [Hheight [_ [Hcached _]]]]]]].
    exists st'. split; [exact Hrun|]. split; [exact Hwidth|].
    split; [apply Hheight; cbn; lia|].
    apply Hcached; [reflexivity | reflexivity | cbn; lia | cbn; lia].
  - destruct (resized_images float Binary64
                (Scenario.loadingHost float 1024 0 (Scenario.silent float))
                (Scenario.fresh float))
      as [st' [Hrun [Hwidth [_ [_ [Hheight [_ Hcached]]]]]]].
    exists st'. split; [exact Hrun|]. split; [exact Hwidth|].
    split; [apply Hheight; cbn; lia|].
    rewrite (Hcached eq_refl). reflexivity.
Defined.

Lemma notifications_and_their_source_applied :
  let host := Scenario.host float 800 200 (Scenario.silent float) in
  let loading := Scenario.loadingHost float 800 0 (Scenario.silent float) in
  let st := Scenario.fresh float in
  7 <> audioThumbnailImage st
  /\ imageChanged host 7 st = ([], Some (tt, st))
  /\ imageUpdated host 7 st
     = ([Repaint], Some (tt, set_cachedImage Scenario.waveform st))
  /\ imageFinished host 7 st
     = ([], Some (tt, set_cachedImage
                        (Image.bitmap Juce.RGB 800 200)
                        (set_cursorImage (Image.bitmap Juce.RGB 3 200) st)))
  /\ imageFinished loading 7 st
     = ([], Some (tt, set_cursorImage (Image.bitmap Juce.RGB 3 1) st)).
Proof.
  cbv zeta.
  assert (H : 7 <> audioThumbnailImage (Scenario.fresh float))
    by (cbn; unfold Scenario.source; lia).
  destruct (notifications_and_their_source
              float Binary64
              (Scenario.host float 800 200 (Scenario.silent float))
              (Scenario.fresh float) 7 H)
    as [Hchanged [Hupdated Hfinished]].
  destruct (notifications_and_their_source
              float Binary64
              (Scenario.loadingHost float 800 0 (Scenario.silent float))
              (Scenario.fresh float) 7 H)
    as [_ [_ Hloading]].
  split; [exact H|]. split; [exact Hchanged|].
  split; [exact (Hupdated 7)|].
  split; [exact (Hfinished 7) | exact (Hloading 7)].
Defined.

(* ================================================================== *)
(** ** Reversing arrays *)

Section Reversing.

Context {T : Type}.

Import Arrays.

Lemma load_app_right (xs ys : list T) (i : Z) :
  i = Z.of_nat (length xs) ->
  load (xs ++ ys) i = nth_error ys 0.
Proof.
  intro Hi. unfold load. subst i.
  destruct (Z.leb_spec 0 (Z.of_nat (length xs))); [|lia].
  rewrite Nat2Z.id, nth_error_app2 by lia.
  rewrite Nat.sub_diag. reflexivity.
Qed.

Lemma store_at_app (xs ys : list T) (x v : T) :
  store_at (xs ++ x :: ys) (length xs) v = Some (xs ++ v :: ys).
Proof.
  induction xs as [|y xs IH]; cbn; [reflexivity|].
  rewrite IH. reflexivity.
Qed.

Lemma store_at_beyond (array : list T) (n : nat) (v : T) :
  (length array <= n)%nat -> store_at array n v = None.
Proof.
  revert n. induction array as [|x rest IH]; intros n Hn; cbn;
    [reflexivity|].
  destruct n as [|n]; cbn in Hn; [lia|].
  rewrite IH by lia. reflexivity.
Qed.

(** One round on an array split at the two places it touches. *)
Lemma exchange_ends (xs mid ys : list T) (x y : T) (a last : Z) :
  a = Z.of_nat (length xs) ->
  last = Z.of_nat (length xs + 1 + length mid) ->
  exchange (xs ++ x :: mid ++ y :: ys) a last
  = Some (xs ++ y :: mid ++ x :: ys).
Proof.
  intros Ha Hlast. unfold exchange.
  rewrite (load_app_right xs (x :: mid ++ y :: ys) a Ha). cbn.
  assert (Hsplit : forall (u v : T),
             xs ++ u :: mid ++ v :: ys = (xs ++ u :: mid) ++ v :: ys).
  { intros u v. rewrite <- app_assoc. reflexivity. }
  assert (Hlen : forall u : T,
             last = Z.of_nat (length (xs ++ u :: mid))).
  { intro u. rewrite length_app. cbn. lia. }
  rewrite (Hsplit x y), (load_app_right _ (y :: ys) last (Hlen x)). cbn.
  rewrite <- (Hsplit x y).
  unfold store. subst a.
  destruct (Z.leb_spec 0 (Z.of_nat (length xs))); [|lia].
  rewrite Nat2Z.id, store_at_app.
  rewrite (Hsplit y y), (Hlen y).
  destruct (Z.leb_spec 0 (Z.of_nat (length (xs ++ y :: mid)))); [|lia].
  rewrite Nat2Z.id, store_at_app. rewrite <- Hsplit. reflexivity.
Qed.

(** A list of two elements or more has a first and a last one. *)
Lemma ends_of_list (l : list T) :
  (2 <= length l)%nat ->
  exists x mid y, l = x :: mid ++ [y].
Proof.
  intro Hl. destruct l as [|x l]; [cbn in Hl; lia|].
  destruct (exists_last (l := l)) as [mid [y Hy]].
  { intro H. subst l. cbn in Hl. lia. }
  exists x, mid, y. rewrite Hy. reflexivity.
Qed.

(** The loop, entered with [a] elements done at the front and the part
    from [length] on done at the back, reverses what lies between. *)
Lemma reverseArray_from_middle (n : nat) :
  forall (mid xs ys : list T) (fuel : nat) (a len : Z),
    (length mid <= n)%nat ->
    (length mid <= 2 * fuel + 1)%nat ->
    a = Z.of_nat (length xs) ->
    len = Z.of_nat (length xs + length mid) ->
    len <= INT_MAX ->
    reverseArray_from fuel (xs ++ mid ++ ys) a len
    = Finished (xs ++ rev mid ++ ys).
Proof.
  induction n as [|n IH]; intros mid xs ys fuel a len Hn Hfuel Ha Hlen Hmax.
  - destruct mid; [|cbn in Hn; lia]. cbn [length] in *.
    destruct fuel; cbn [reverseArray_from];
      (replace (in_int (len - 1)) with true
        by (unfold in_int, INT_MIN, INT_MAX in *; lia));
      (destruct (Z.ltb_spec a (len - 1)); [lia|]); reflexivity.
  - destruct (le_lt_dec (length mid) 1) as [Hshort|Hlong].
    + assert (Hrev : rev mid = mid).
      { destruct mid as [|x [|y mid]]; try reflexivity. cbn in Hshort. lia. }
      rewrite Hrev.
      destruct fuel; cbn [reverseArray_from];
        (replace (in_int (len - 1)) with true
          by (unfold in_int, INT_MIN, INT_MAX in *; lia));
        (destruct (Z.ltb_spec a (len - 1)); [lia|]); reflexivity.
    + destruct (ends_of_list mid) as [x [mid' [y Hmid]]]; [lia|].
      subst mid. rewrite length_cons, length_app in *. cbn [length] in *.
      destruct fuel as [|fuel]; [lia|].
      cbn [reverseArray_from].
      replace (in_int (len - 1)) with true
        by (unfold in_int, INT_MIN, INT_MAX in *; lia).
      destruct (Z.ltb_spec a (len - 1)); [|lia].
      replace (xs ++ (x :: mid' ++ [y]) ++ ys)
        with (xs ++ x :: mid' ++ y :: ys)
        by (cbn; rewrite <- app_assoc; reflexivity).
      rewrite (exchange_ends xs mid' ys x y a (len - 1)) by lia.
      replace (xs ++ y :: mid' ++ x :: ys)
        with ((xs ++ [y]) ++ mid' ++ (x :: ys))
        by (rewrite <- app_assoc; reflexivity).
      rewrite (IH mid' (xs ++ [y]) (x :: ys) fuel (a + 1) (len - 1));
        try lia; try (rewrite length_app; cbn; lia).
      f_equal. cbn. rewrite rev_app_distr. cbn.
      rewrite <- !app_assoc. reflexivity.
Qed.

Lemma in_int_pred (n : Z) :
  in_int n = true -> INT_MIN < n -> in_int (n - 1) = true.
Proof. unfold in_int, INT_MIN, INT_MAX. lia. Qed.

(** Every outcome of [reverseArray] on an [int] length. *)
Lemma reverseArray_outcome (array : list T) (n : Z) :
  in_int n = true ->
  reverseArray array n
  = if n =? INT_MIN then Undefined
    else if n <=? 1 then Finished array
    else if n <=? Z.of_nat (length array)
         then Finished (rev (firstn (Z.to_nat n) array)
                        ++ skipn (Z.to_nat n) array)
         else Undefined.
Proof.
  intro Hint. unfold reverseArray.
  destruct (Z.eqb_spec n INT_MIN) as [Hmin|Hmin].
  { subst n. cbn. reflexivity. }
  assert (Hpred : in_int (n - 1) = true).
  { apply in_int_pred; [exact Hint|].
    unfold in_int, INT_MIN, INT_MAX in *. lia. }
  destruct (Z.leb_spec n 1) as [Hshort|Hlong].
  { destruct (Z.to_nat n); cbn [reverseArray_from]; rewrite Hpred;
      (destruct (Z.ltb_spec 0 (n - 1)); [lia|]); reflexivity. }
  destruct (Z.leb_spec n (Z.of_nat (length array))) as [Hin|Hout].
  - rewrite <- (firstn_skipn (Z.to_nat n) array) at 1.
    apply (reverseArray_from_middle
             (length (firstn (Z.to_nat n) array))
             (firstn (Z.to_nat n) array) []
             (skipn (Z.to_nat n) array) (Z.to_nat n) 0 n).
    + lia.
    + rewrite length_firstn. lia.
    + reflexivity.
    + rewrite length_firstn. cbn. lia.
    + unfold in_int, INT_MAX in *. lia.
  - destruct (Z.to_nat n) as [|fuel] eqn:Hfuel; [lia|].
    cbn [reverseArray_from]. rewrite Hpred.
    destruct (Z.ltb_spec 0 (n - 1)); [|lia].
    unfold exchange, load.
    destruct (Z.leb_spec 0 (n - 1)); [|lia].
    replace (nth_error array (Z.to_nat (n - 1))) with (@None T)
      by (symmetry; apply nth_error_None; lia).
    cbn. destruct array; reflexivity.
Qed.

(** [reverseArray] on a whole array gives the array in reverse order. *)
Theorem reverseArray_reverses :
  forall array : list T,
    Z.of_nat (length array) <= INT_MAX ->
    reverseArray array (Z.of_nat (length array)) = Finished (rev array).
Proof.
  intros array Hmax.
  rewrite reverseArray_outcome
    by (unfold in_int, INT_MIN, INT_MAX in *; lia).
  destruct (Z.eqb_spec (Z.of_nat (length array)) INT_MIN) as [H|_];
    [unfold INT_MIN in H; lia|].
  destruct (Z.leb_spec (Z.of_nat (length array)) 1) as [Hshort|_].
  - destruct array as [|x [|y array]]; try reflexivity.
    cbn [length] in Hshort. lia.
  - rewrite Z.leb_refl, Nat2Z.id, firstn_all, skipn_all, app_nil_r.
    reflexivity.
Qed.

(** Given a length shorter than the array, [reverseArray] reverses that
    many elements at the front and leaves the rest where it is. *)
Theorem reverseArray_reverses_front :
  forall (array : list T) (n : nat),
    (n <= length array)%nat ->
    Z.of_nat n <= INT_MAX ->
    reverseArray array (Z.of_nat n)
    = Finished (rev (firstn n array) ++ skipn n array).
Proof.
  intros array n Hn Hmax.
  rewrite reverseArray_outcome
    by (unfold in_int, INT_MIN, INT_MAX in *; lia).
  destruct (Z.eqb_spec (Z.of_nat n) INT_MIN) as [H|_];
    [unfold INT_MIN in H; lia|].
  rewrite Nat2Z.id.
  destruct (Z.leb_spec (Z.of_nat n) 1) as [Hshort|_].
  - destruct n as [|[|n]]; [| |lia].
    + reflexivity.
    + destruct array as [|x array]; reflexivity.
  - destruct (Z.leb_spec (Z.of_nat n) (Z.of_nat (length array))); [|lia].
    reflexivity.
Qed.

(** A length of 1, of 0 or below 0 makes [reverseArray] leave the array as
    it is, and touch none of it: the array may even be empty. *)
Theorem reverseArray_short_length :
  forall (array : list T) (n : Z),
    INT_MIN < n <= 1 ->
    reverseArray array n = Finished array.
Proof.
  intros array n [Hlow Hhigh].
  rewrite reverseArray_outcome
    by (unfold in_int, INT_MIN, INT_MAX in *; lia).
  destruct (Z.eqb_spec n INT_MIN); [lia|].
  destruct (Z.leb_spec n 1); [reflexivity | lia].
Qed.

(** A length of 2 or more that is greater than the array has
    [reverseArray] reach outside the array. *)
Theorem reverseArray_beyond_the_array :
  forall (array : list T) (n : Z),
    2 <= n <= INT_MAX ->
    Z.of_nat (length array) < n ->
    reverseArray array n = Undefined.
Proof.
  intros array n [Hlow Hhigh] Hout.
  rewrite reverseArray_outcome
    by (unfold in_int, INT_MIN, INT_MAX in *; lia).
  destruct (Z.eqb_spec n INT_MIN); [unfold INT_MIN in *; lia|].
  destruct (Z.leb_spec n 1); [lia|].
  destruct (Z.leb_spec n (Z.of_nat (length array))); [lia | reflexivity].
Qed.

Lemma firstn_front (l1 l2 : list T) : firstn (length l1) (l1 ++ l2) = l1.
Proof.
  rewrite firstn_app, firstn_all, Nat.sub_diag. cbn. apply app_nil_r.
Qed.

Lemma skipn_front (l1 l2 : list T) : skipn (length l1) (l1 ++ l2) = l2.
Proof.
  rewrite skipn_app, skipn_all, Nat.sub_diag. reflexivity.
Qed.

(** Reversing twice with the same length gives the array back. *)
Theorem reverseArray_twice :
  forall (array array' : list T) (n : Z),
    in_int n = true ->
    reverseArray array n = Finished array' ->
    reverseArray array' n = Finished array.
Proof.
  intros array array' n Hint.
  rewrite !reverseArray_outcome by exact Hint.
  destruct (Z.eqb_spec n INT_MIN); [discriminate|].
  destruct (Z.leb_spec n 1) as [_|Hlong].
  { intro H. inversion H. reflexivity. }
  destruct (Z.leb_spec n (Z.of_nat (length array))) as [Hin|_];
    [|discriminate].
  intro H. inversion H as [Harray']. clear H.
  set (k := Z.to_nat n) in *. set (r := rev (firstn k array)) in *.
  assert (Hfront : length r = k).
  { unfold r. rewrite length_rev, length_firstn. lia. }
  assert (Hlen : length (r ++ skipn k array) = length array).
  { rewrite length_app, Hfront, length_skipn. lia. }
  rewrite Hlen.
  destruct (Z.leb_spec n (Z.of_nat (length array))); [|lia].
  assert (H1 : firstn k (r ++ skipn k array) = r).
  { rewrite <- Hfront. apply firstn_front. }
  assert (H2 : skipn k (r ++ skipn k array) = skipn k array).
  { rewrite <- Hfront at 1. apply skipn_front. }
  rewrite H1, H2. unfold r. rewrite rev_involutive, firstn_skipn.
  reflexivity.
Qed.

(** *** Two arrays in one memory *)

Ltac flatten_lists :=
  repeat (rewrite <- ?app_assoc, <- ?app_comm_cons); cbn [app].

(** The loop on two arrays that lie apart, [array1] before [array2], entered
    with [x1] and [x2] done at their fronts and [y1] and [y2] at their
    backs. *)
Lemma reverseTwoArrays_from_middle (n : nat) :
  forall (mid1 mid2 x1 y1 x2 y2 before between after : list T)
         (fuel : nat) (a len : Z),
    (length mid1 <= n)%nat ->
    length mid2 = length mid1 ->
    length x2 = length x1 ->
    length y2 = length y1 ->
    (length mid1 <= 2 * fuel + 1)%nat ->
    a = Z.of_nat (length x1) ->
    len = Z.of_nat (length x1 + length mid1) ->
    len <= INT_MAX ->
    let memory :=
      before ++ (x1 ++ mid1 ++ y1) ++ between ++ (x2 ++ mid2 ++ y2) ++ after in
    let memory' :=
      before ++ (x1 ++ rev mid1 ++ y1) ++ between
             ++ (x2 ++ rev mid2 ++ y2) ++ after in
    let p1 := Z.of_nat (length before) in
    let p2 :=
      Z.of_nat (length before + length (x1 ++ mid1 ++ y1) + length between) in
    reverseTwoArrays_from fuel memory p1 p2 a len = Finished memory'
    /\ reverseTwoArrays_from fuel memory p2 p1 a len = Finished memory'.
Proof.
  induction n as [|n IH];
    intros mid1 mid2 x1 y1 x2 y2 before between after fuel a len
           Hn Hmid Hx Hy Hfuel Ha Hlen Hmax memory memory' p1 p2.
  - destruct mid1; [|cbn in Hn; lia]. destruct mid2; [|cbn in Hmid; lia].
    cbn [length] in *. subst memory memory'. cbn [rev].
    destruct fuel; cbn [reverseTwoArrays_from];
      (replace (in_int (len - 1)) with true
        by (unfold in_int, INT_MIN, INT_MAX in *; lia));
      (destruct (Z.ltb_spec a (len - 1)); [lia|]); split; reflexivity.
  - destruct (le_lt_dec (length mid1) 1) as [Hshort|Hlong].
    + assert (Hrev1 : rev mid1 = mid1).
      { destruct mid1 as [|u [|v mid1]]; try reflexivity.
        cbn in Hshort. lia. }
      assert (Hrev2 : rev mid2 = mid2).
      { destruct mid2 as [|u [|v mid2]]; try reflexivity.
        cbn in Hmid. lia. }
      subst memory memory'. rewrite Hrev1, Hrev2.
      destruct fuel; cbn [reverseTwoArrays_from];
        (replace (in_int (len - 1)) with true
          by (unfold in_int, INT_MIN, INT_MAX in *; lia));
        (destruct (Z.ltb_spec a (len - 1)); [lia|]); split; reflexivity.
    + destruct (ends_of_list mid1) as [u1 [m1 [v1 Hm1]]]; [lia|].
      destruct (ends_of_list mid2) as [u2 [m2 [v2 Hm2]]]; [lia|].
      subst mid1 mid2.
      assert (Hm : length m2 = length m1).
      { rewrite !length_cons, !length_app in Hmid. cbn in Hmid. lia. }
      assert (Hlen1 : length (u1 :: m1 ++ [v1]) = (length m1 + 2)%nat).
      { rewrite length_cons, length_app. cbn. lia. }
      rewrite Hlen1 in *.
      destruct fuel as [|fuel]; [lia|].
      (* the memory after the round, and the places the round touches *)
      set (front := before ++ x1).
      set (tail1 := y1 ++ between ++ x2).
      set (tail2 := y2 ++ after).
      assert (Hmemory :
                memory
                = front ++ u1 :: m1 ++ v1 :: tail1 ++ u2 :: m2 ++ v2 :: tail2).
      { subst memory front tail1 tail2. flatten_lists. reflexivity. }
      assert (Hfront : length front = (length before + length x1)%nat).
      { subst front. apply length_app. }
      assert (Hp2 : p2 = Z.of_nat (length before + length x1 + (length m1 + 2)
                                   + length y1 + length between)).
      { subst p2. rewrite !length_app, Hlen1. lia. }
      assert (Htail1 : length tail1
                       = (length y1 + length between + length x1)%nat).
      { subst tail1. rewrite !length_app. lia. }
      assert (Hrange : in_int (len - 1) = true)
        by (unfold in_int, INT_MIN, INT_MAX in *; lia).
      (* what is left for the rounds to come *)
      destruct (IH m1 m2 (x1 ++ [v1]) (u1 :: y1) (x2 ++ [v2]) (u2 :: y2)
                   before between after fuel (a + 1) (len - 1)) as [IH1 IH2];
        try lia;
        try (rewrite ?length_app; cbn [length]; lia).
      assert (Hnext :
                before ++ ((x1 ++ [v1]) ++ m1 ++ u1 :: y1) ++ between
                       ++ ((x2 ++ [v2]) ++ m2 ++ u2 :: y2) ++ after
                = front ++ v1 :: m1 ++ u1 :: tail1 ++ v2 :: m2 ++ u2 :: tail2).
      { subst front tail1 tail2. flatten_lists. reflexivity. }
      assert (Hresult :
                before ++ ((x1 ++ [v1]) ++ rev m1 ++ u1 :: y1) ++ between
                       ++ ((x2 ++ [v2]) ++ rev m2 ++ u2 :: y2) ++ after
                = memory').
      { subst memory'. cbn [rev]. rewrite !rev_app_distr. cbn [rev app].
        flatten_lists. reflexivity. }
      assert (Hplace :
                Z.of_nat (length before
                          + length ((x1 ++ [v1]) ++ m1 ++ u1 :: y1)
                          + length between) = p2).
      { rewrite Hp2, !length_app. cbn [length]. lia. }
      rewrite Hnext, Hresult, Hplace in IH1, IH2.
      fold p1 in IH1, IH2.
      split.
      * cbn [reverseTwoArrays_from]. rewrite Hrange.
        destruct (Z.ltb_spec a (len - 1)); [|lia].
        rewrite Hmemory.
        rewrite (exchange_ends front m1
                   (tail1 ++ u2 :: m2 ++ v2 :: tail2) u1 v1)
          by (subst p1; lia).
        replace (front ++ v1 :: m1 ++ u1 :: tail1 ++ u2 :: m2 ++ v2 :: tail2)
          with ((front ++ v1 :: m1 ++ u1 :: tail1) ++ u2 :: m2 ++ v2 :: tail2)
          by (flatten_lists; reflexivity).
        rewrite (exchange_ends (front ++ v1 :: m1 ++ u1 :: tail1) m2 tail2
                               u2 v2)
          by (rewrite Hp2, !length_app; cbn [length];
              rewrite !length_app; cbn [length]; lia).
        flatten_lists. flatten_lists. exact IH1.
      * cbn [reverseTwoArrays_from]. rewrite Hrange.
        destruct (Z.ltb_spec a (len - 1)); [|lia].
        rewrite Hmemory.
        replace (front ++ u1 :: m1 ++ v1 :: tail1 ++ u2 :: m2 ++ v2 :: tail2)
          with ((front ++ u1 :: m1 ++ v1 :: tail1) ++ u2 :: m2 ++ v2 :: tail2)
          by (flatten_lists; reflexivity).
        rewrite (exchange_ends (front ++ u1 :: m1 ++ v1 :: tail1) m2 tail2
                               u2 v2)
          by (rewrite Hp2, !length_app; cbn [length];
              rewrite !length_app; cbn [length]; lia).
        replace ((front ++ u1 :: m1 ++ v1 :: tail1) ++ v2 :: m2 ++ u2 :: tail2)
          with (front ++ u1 :: m1 ++ v1 :: tail1 ++ v2 :: m2 ++ u2 :: tail2)
          by (flatten_lists; reflexivity).
        rewrite (exchange_ends front m1
                   (tail1 ++ v2 :: m2 ++ u2 :: tail2) u1 v1)
          by (subst p1; lia).
        exact IH2.
Qed.

(** [reverseTwoArrays] on two arrays of the same length that lie apart in
    memory reverses each of them and leaves the rest of the memory as it
    is, whichever of the two is handed over first. *)
Theorem reverseTwoArrays_reverses_each :
  forall (before array1 between array2 after : list T),
    length array2 = length array1 ->
    Z.of_nat (length array1) <= INT_MAX ->
    let memory := before ++ array1 ++ between ++ array2 ++ after in
    let reversed := before ++ rev array1 ++ between ++ rev array2 ++ after in
    let first := Z.of_nat (length before) in
    let second := Z.of_nat (length (before ++ array1 ++ between)) in
    let n := Z.of_nat (length array1) in
    reverseTwoArrays memory first second n = Finished reversed
    /\ reverseTwoArrays memory second first n = Finished reversed.
Proof.
  intros before array1 between array2 after Hsame Hmax
         memory reversed first second n.
  unfold reverseTwoArrays.
  pose proof (reverseTwoArrays_from_middle
                (length array1) array1 array2 [] [] [] []
                before between after (Z.to_nat n) 0 n) as H.
  cbn [app length] in H. rewrite !app_nil_r in H.
  assert (Hmemory :
            before ++ array1 ++ between ++ array2 ++ after = memory)
    by reflexivity.
  assert (Hreversed :
            before ++ rev array1 ++ between ++ rev array2 ++ after = reversed)
    by reflexivity.
  assert (Hsecond :
            Z.of_nat (length before + length array1 + length between) = second).
  { subst second. rewrite !length_app. lia. }
  rewrite Hmemory, Hreversed, Hsecond in H.
  apply H; try reflexivity; subst n; lia.
Qed.

(** A memory splits at any two places in it. *)
Lemma split_at_two (memory : list T) (i j : Z) :
  0 <= i < j ->
  j < Z.of_nat (length memory) ->
  exists xs x mid y ys,
    memory = xs ++ x :: mid ++ y :: ys
    /\ i = Z.of_nat (length xs)
    /\ j = Z.of_nat (length xs + 1 + length mid).
Proof.
  intros Hij Hj.
  pose proof (firstn_skipn (Z.to_nat i) memory) as Hsplit.
  pose proof (length_firstn (Z.to_nat i) memory) as Hxs.
  pose proof (length_skipn (Z.to_nat i) memory) as Hrest.
  destruct (skipn (Z.to_nat i) memory) as [|x rest]; cbn [length] in Hrest;
    [lia|].
  pose proof (firstn_skipn (Z.to_nat (j - i - 1)) rest) as Hsplit'.
  pose proof (length_firstn (Z.to_nat (j - i - 1)) rest) as Hmid.
  pose proof (length_skipn (Z.to_nat (j - i - 1)) rest) as Hrest'.
  destruct (skipn (Z.to_nat (j - i - 1)) rest) as [|y ys];
    cbn [length] in Hrest'; [lia|].
  exists (firstn (Z.to_nat i) memory), x,
    (firstn (Z.to_nat (j - i - 1)) rest), y, ys.
  rewrite Hsplit', Hsplit. repeat split; lia.
Qed.

(** Two rounds at the same two places undo each other. *)
Lemma exchange_twice (memory : list T) (i j : Z) :
  0 <= i < j ->
  j < Z.of_nat (length memory) ->
  exists memory',
    exchange memory i j = Some memory'
    /\ exchange memory' i j = Some memory.
Proof.
  intros Hij Hj.
  destruct (split_at_two memory i j Hij Hj)
    as [xs [x [mid [y [ys [Hmemory [Hi Hj']]]]]]].
  subst memory. exists (xs ++ y :: mid ++ x :: ys).
  split; apply exchange_ends; assumption.
Qed.

Lemma reverseTwoArrays_from_same (fuel : nat) :
  forall (memory : list T) (array a len : Z),
    0 <= array ->
    0 <= a ->
    array + len <= Z.of_nat (length memory) ->
    len - a <= 2 * Z.of_nat fuel + 1 ->
    in_int len = true ->
    INT_MIN < len ->
    reverseTwoArrays_from fuel memory array array a len = Finished memory.
Proof.
  induction fuel as [|fuel IH];
    intros memory array a len Harray Ha Hin Hfuel Hint Hmin;
    cbn [reverseTwoArrays_from];
    rewrite (in_int_pred len Hint Hmin);
    destruct (Z.ltb_spec a (len - 1)) as [Hlt|Hge]; try reflexivity;
    [lia|].
  destruct (exchange_twice memory (array + a) (array + (len - 1)))
    as [memory' [Hthere Hback]]; [lia | lia |].
  rewrite Hthere, Hback.
  apply IH; try lia.
  - unfold in_int, INT_MIN, INT_MAX in *. lia.
  - unfold INT_MIN in *. lia.
Qed.

(** [reverseTwoArrays] handed the same array twice leaves it as it is:
    each round exchanges the same two elements twice. *)
Theorem reverseTwoArrays_same_array :
  forall (memory : list T) (array n : Z),
    0 <= array ->
    array + n <= Z.of_nat (length memory) ->
    in_int n = true ->
    INT_MIN < n ->
    reverseTwoArrays memory array array n = Finished memory.
Proof.
  intros memory array n Harray Hin Hint Hmin.
  unfold reverseTwoArrays.
  apply reverseTwoArrays_from_same; try assumption; lia.
Qed.

End Reversing.

(* ================================================================== *)
(** ** Dates in the iTunes format *)

Lemma digitChar_is_digit (d : nat) :
  (d < 10)%nat ->
  JuceString.digitValue (digitChar d) = Some (Z.of_nat d)
  /\ JuceString.isWhitespace (digitChar d) = false
  /\ JuceString.char_eqb (digitChar d) JuceString.minus = false.
Proof.
  intro Hd.
  do 10 (destruct d as [|d]; [repeat split|]).
  lia.
Qed.

Lemma readDigits_written (ds : list nat) :
  Forall (fun d => (d < 10)%nat) ds ->
  forall v,
    JuceString.readDigits v (map digitChar ds)
    = fold_left (fun v d => v * 10 + Z.of_nat d) ds v.
Proof.
  induction 1 as [|d ds Hd _ IH]; intro v; [reflexivity|].
  cbn [map JuceString.readDigits fold_left].
  destruct (digitChar_is_digit d Hd) as [Hvalue _].
  rewrite Hvalue. apply IH.
Qed.

(** [getIntValue] reads a string of digits as the number they write. *)
Lemma getIntValue_written (ds : list nat) :
  Forall (fun d => (d < 10)%nat) ds ->
  JuceString.getIntValue (map digitChar ds) = number ds.
Proof.
  intro Hds. unfold JuceString.getIntValue, number.
  destruct Hds as [|d ds Hd Hds]; [reflexivity|].
  cbn [map JuceString.skipWhitespace].
  destruct (digitChar_is_digit d Hd) as [_ [Hspace Hminus]].
  rewrite Hspace, Hminus.
  apply (readDigits_written (d :: ds)). constructor; assumption.
Qed.

Lemma substring_past_the_end (s : JuceString.t) (a b : Z) :
  0 <= a ->
  Z.of_nat (length s) <= a ->
  JuceString.substring s a b = JuceString.empty.
Proof.
  intros Ha Hs. unfold JuceString.substring.
  destruct (Z.ltb_spec a 0); [lia|].
  destruct (b <=? a); [reflexivity|].
  rewrite skipn_all2 by lia. apply firstn_nil.
Qed.

(** A date written as four digits, two, two, two, two and two, with one
    character of whatever kind between them and anything after, is read
    field by field; the month is counted from 0. *)
Theorem parseITunesDateString_reads_the_fields :
  forall (y mo d h mi s : list nat) (c1 c2 c3 c4 c5 : Ascii.ascii)
         (rest : JuceString.t),
    length y = 4%nat -> length mo = 2%nat -> length d = 2%nat ->
    length h = 2%nat -> length mi = 2%nat -> length s = 2%nat ->
    Forall (fun digit => (digit < 10)%nat) (y ++ mo ++ d ++ h ++ mi ++ s) ->
    parseITunesDateString
      (map digitChar y ++ c1 :: map digitChar mo ++ c2 :: map digitChar d
       ++ c3 :: map digitChar h ++ c4 :: map digitChar mi
       ++ c5 :: map digitChar s ++ rest)
    = {| year := number y;
         month := number mo - 1;
         day := number d;
         hours := number h;
         minutes := number mi;
         seconds := number s;
         milliseconds := 0;
         useLocalTime := true |}.
Proof.
  intros y mo d h mi s c1 c2 c3 c4 c5 rest Hy Hmo Hd Hh Hmi Hs Hdigits.
  destruct y as [|y1 [|y2 [|y3 [|y4 [|]]]]]; try discriminate.
  destruct mo as [|mo1 [|mo2 [|]]]; try discriminate.
  destruct d as [|d1 [|d2 [|]]]; try discriminate.
  destruct h as [|h1 [|h2 [|]]]; try discriminate.
  destruct mi as [|mi1 [|mi2 [|]]]; try discriminate.
  destruct s as [|s1 [|s2 [|]]]; try discriminate.
  cbn [app] in Hdigits.
  repeat match goal with
         | H : Forall _ (_ :: _) |- _ => inversion H; clear H; subst
         end.
  pose proof (getIntValue_written [y1; y2; y3; y4]) as Ey.
  pose proof (getIntValue_written [mo1; mo2]) as Emo.
  pose proof (getIntValue_written [d1; d2]) as Ed.
  pose proof (getIntValue_written [h1; h2]) as Eh.
  pose proof (getIntValue_written [mi1; mi2]) as Emi.
  pose proof (getIntValue_written [s1; s2]) as Es.
  cbn [map] in *.
  unfold parseITunesDateString, JuceString.substring.
  cbn -[JuceString.getIntValue digitChar number].
  repeat match goal with
         | |- context [Pos.to_nat ?p] =>
             let n := eval vm_compute in (Pos.to_nat p) in
             change (Pos.to_nat p) with n
         end.
  cbn [firstn skipn].
  rewrite Ey, Emo, Ed, Eh, Emi, Es
    by (repeat (constructor; try assumption)).
  reflexivity.
Qed.

(** A string of five characters or fewer is not turned down: the month
    comes out as -1 and the day and the time of day as 0. *)
Theorem parseITunesDateString_short_input :
  forall dateString : JuceString.t,
    (length dateString <= 5)%nat ->
    month (parseITunesDateString dateString) = -1
    /\ day (parseITunesDateString dateString) = 0
    /\ hours (parseITunesDateString dateString) = 0
    /\ minutes (parseITunesDateString dateString) = 0
    /\ seconds (parseITunesDateString dateString) = 0.
Proof.
  intros dateString Hshort. unfold parseITunesDateString.
  cbn [month day hours minutes seconds].
  rewrite !substring_past_the_end by lia.
  repeat split.
Qed.

(* ================================================================== *)
(** ** Local file addresses *)

Section FileProtocolFacts.

Variable JUCE_WINDOWS : bool.
Variable removeEscapeChars : JuceString.t -> JuceString.t.

Import Stdlib.Strings.Ascii Stdlib.Strings.String.

Lemma startsWith_front (p s : JuceString.t) :
  JuceString.startsWith (p ++ s) p = true.
Proof.
  induction p as [|c p IH]; [destruct s; reflexivity|].
  cbn. unfold JuceString.char_eqb. rewrite Ascii.eqb_refl. exact IH.
Qed.

Lemma find_character (c : Ascii.ascii) (xs r : JuceString.t) :
  ~ In c xs ->
  JuceString.find (xs ++ c :: r) [c] = Z.of_nat (List.length xs).
Proof.
  induction xs as [|x xs IH]; intro Hc.
  - cbn. unfold JuceString.char_eqb. rewrite Ascii.eqb_refl.
    destruct r; reflexivity.
  - cbn [app JuceString.find JuceString.startsWith].
    assert (Hx : JuceString.char_eqb x c = false).
    { apply Ascii.eqb_neq. intro H. apply Hc. left. exact H. }
    rewrite Hx. cbn [andb].
    rewrite IH by (intro H; apply Hc; right; exact H).
    destruct (Z.ltb_spec (Z.of_nat (List.length xs)) 0); [lia|].
    cbn [List.length]. lia.
Qed.

Lemma find_no_character (c : Ascii.ascii) (xs : JuceString.t) :
  ~ In c xs -> JuceString.find xs [c] = -1.
Proof.
  induction xs as [|x xs IH]; intro Hc; [reflexivity|].
  cbn [JuceString.find JuceString.startsWith].
  assert (Hx : JuceString.char_eqb x c = false).
  { apply Ascii.eqb_neq. intro H. apply Hc. left. exact H. }
  rewrite Hx. cbn [andb].
  rewrite IH by (intro H; apply Hc; right; exact H).
  reflexivity.
Qed.

Lemma no_slash_in_localhost (host : JuceString.t) :
  ~ In "/"%char host ->
  ~ In "/"%char (JuceString.literal "localhost"%string ++ host).
Proof.
  intros Hhost H. apply in_app_or in H. destruct H as [H|H]; [|auto].
  cbn in H. repeat (destruct H as [H|H]; [discriminate|]). exact H.
Qed.

(** An address that starts with [file://localhost] is cut at the first
    slash after the host: what was written between [file://localhost] and
    that slash is dropped with it, and the path, without its slash on
    Windows, goes through [removeEscapeChars]. *)
Theorem stripFileProtocolForLocal_keeps_the_path :
  forall host path : JuceString.t,
    ~ In "/"%char host ->
    stripFileProtocolForLocal
      JUCE_WINDOWS removeEscapeChars
      (JuceString.literal "file://localhost"%string ++ host ++ "/"%char :: path)
    = removeEscapeChars
        (if JUCE_WINDOWS then path else "/"%char :: path).
Proof.
  intros host path Hhost. unfold stripFileProtocolForLocal.
  rewrite startsWith_front.
  assert (Hindex :
            JuceString.indexOf
              (JuceString.literal "file://localhost"%string
               ++ host ++ "/"%char :: path)
              7 (JuceString.literal "/"%string)
            = Z.of_nat
                (List.length
                   (JuceString.literal "file://localhost"%string ++ host))).
  { unfold JuceString.indexOf. cbn [JuceString.literal list_ascii_of_string].
    rewrite !length_app. cbn [List.length].
    destruct (Z.ltb_spec
                (Z.of_nat (16 + (List.length host
                                 + S (List.length path)))) 7); [lia|].
    match goal with
    | |- context [skipn ?n ?l] =>
        change (skipn n l)
          with ((JuceString.literal "localhost"%string ++ host)
                ++ "/"%char :: path)
    end.
    rewrite (find_character "/"%char _ path (no_slash_in_localhost _ Hhost)).
    rewrite length_app. cbn [JuceString.literal list_ascii_of_string
                              List.length].
    destruct (Z.leb_spec 0 (Z.of_nat (9 + List.length host))); lia. }
  rewrite Hindex.
  set (front := JuceString.literal "file://localhost"%string ++ host) in *.
  replace (JuceString.literal "file://localhost"%string ++ host
           ++ "/"%char :: path)
    with (front ++ "/"%char :: path)
    by (unfold front; rewrite <- app_assoc; reflexivity).
  assert (Hfront : (16 <= List.length front)%nat).
  { unfold front. rewrite length_app. cbn. lia. }
  unfold JuceString.substringFrom.
  destruct JUCE_WINDOWS.
  - destruct (Z.leb_spec (Z.of_nat (List.length front) + 1) 0); [lia|].
    replace (Z.to_nat (Z.of_nat (List.length front) + 1))
      with (List.length (front ++ ["/"%char]))
      by (rewrite length_app; cbn; lia).
    replace (front ++ "/"%char :: path)
      with ((front ++ ["/"%char]) ++ path)
      by (rewrite <- app_assoc; reflexivity).
    rewrite skipn_app, skipn_all, Nat.sub_diag. reflexivity.
  - destruct (Z.leb_spec (Z.of_nat (List.length front)) 0); [lia|].
    rewrite Nat2Z.id, skipn_app, skipn_all, Nat.sub_diag. reflexivity.
Qed.

(** An address that starts with [file://localhost] but has no slash after
    the host comes back whole, [file://localhost] included, through
    [removeEscapeChars]: the search for the slash gives -1, and the string
    from -1 on is all of it. *)
Theorem stripFileProtocolForLocal_without_a_path :
  forall host : JuceString.t,
    ~ In "/"%char host ->
    stripFileProtocolForLocal
      JUCE_WINDOWS removeEscapeChars
      (JuceString.literal "file://localhost"%string ++ host)
    = removeEscapeChars
        (JuceString.literal "file://localhost"%string ++ host).
Proof.
  intros host Hhost. unfold stripFileProtocolForLocal.
  rewrite startsWith_front.
  assert (Hindex :
            JuceString.indexOf
              (JuceString.literal "file://localhost"%string ++ host)
              7 (JuceString.literal "/"%string)
            = -1).
  { unfold JuceString.indexOf.
    cbn [JuceString.literal list_ascii_of_string].
    rewrite length_app. cbn [List.length].
    destruct (Z.ltb_spec (Z.of_nat (16 + List.length host)) 7); [lia|].
    match goal with
    | |- context [skipn ?n ?l] =>
        change (skipn n l)
          with (JuceString.literal "localhost"%string ++ host)
    end.
    rewrite (find_no_character "/"%char _
               (no_slash_in_localhost _ Hhost)).
    reflexivity. }
  rewrite Hindex. destruct JUCE_WINDOWS; reflexivity.
Qed.

End FileProtocolFacts.

(* ================================================================== *)
(** ** Further properties of the component *)

Section MoreOfTheComponent.

Context {D : Type} {DD : Double D}.

Lemma run_app (before after : list (Host D * Call D))
      (st st' : WaveDisplay D) :
  final (run (before ++ after) st) = Some st' ->
  exists st1,
    final (run before st) = Some st1 /\ final (run after st1) = Some st'.
Proof.
  revert st. induction before as [|[host c] before IH]; intros st Hrun.
  - exists st. split; [reflexivity | exact Hrun].
  - cbn [app run] in *. unfold final, bind in Hrun |- *.
    destruct (serve host c st) as [log [[u st0]|]]; [|discriminate].
    cbn [fst snd] in *. apply IH. exact Hrun.
Qed.

(** A relation every call respects holds along every history. *)
Lemma run_respects (R : WaveDisplay D -> WaveDisplay D -> Prop) :
  (forall st, R st st) ->
  (forall a b c, R a b -> R b c -> R a c) ->
  (forall host c, respects R (serve host c)) ->
  forall history, respects R (run history).
Proof.
  intros Hrefl Htrans Hserve history.
  induction history as [|[host c] rest IH]; cbn [run].
  - apply respects_ret. exact Hrefl.
  - apply respects_bind; [exact Htrans | apply Hserve | intro; exact IH].
Qed.

(** *** Painting reads, and writes nothing *)

Lemma paint_respects_eq (host : Host D) : respects eq (paint host).
Proof.
  assert (Hr : forall st : WaveDisplay D, st = st) by reflexivity.
  assert (Ht : forall a b c : WaveDisplay D, a = b -> b = c -> a = c)
    by (intros; congruence).
  unfold paint. frame.
Qed.

(** [paint] leaves the object as it found it, and asks neither for a
    redraw nor for a seek. *)
Theorem paint_changes_nothing :
  forall (host : Host D) (st st' : WaveDisplay D),
    final (paint host st) = Some st' ->
    st' = st
    /\ redraws (effects (paint host st)) = []
    /\ seeks (effects (paint host st)) = []
    /\ divisions (effects (paint host st)) = [].
Proof.
  intros host st st' Hrun. split.
  - symmetry. exact (final_respects eq _ st st' (paint_respects_eq host) Hrun).
  - clear Hrun.
    unfold paint, truncate, int_sub, defined, ret, undefined, bind, get,
      emit, effects.
    repeat (cbn;
            match goal with
            | |- context [match ?x with _ => _ end] =>
                lazymatch x with
                | context [match _ with _ => _ end] => fail
                | _ => destruct x eqn:?
                end
            end);
      cbn; repeat split.
Qed.

(** *** The mouse while the cursor is hidden *)

(** While the cursor is not shown, presses, drags and releases do nothing
    at all: no seek, no redraw, no change to the object. *)
Theorem mouse_ignored_while_cursor_hidden :
  forall (history : list (Host D * Call D)) (st : WaveDisplay D),
    showTransportCursor st = false ->
    forallb (fun hc => from_mouse (snd hc)) history = true ->
    run history st = ([], Some (tt, st)).
Proof.
  induction history as [|[host c] rest IH]; intros st Hhidden Hmouse;
    [reflexivity|].
  cbn [forallb snd] in Hmouse. apply andb_true_iff in Hmouse.
  destruct Hmouse as [Hc Hrest].
  assert (Hstep : serve host c st = ([], Some (tt, st))).
  { destruct c; try discriminate; cbn [serve];
      unfold mouseDown, mouseUp, mouseDrag, bind, get; cbn;
      rewrite Hhidden; reflexivity. }
  cbn [run]. unfold bind. rewrite Hstep. cbn.
  rewrite (IH st Hhidden Hrest). reflexivity.
Qed.

(** *** Press, then drag *)


(** *** Invariants over histories *)

(** A property every call keeps holds at the end of every history. *)
Lemma run_keeps (P : WaveDisplay D -> Prop) :
  (forall host c st st',
      P st -> final (serve host c st) = Some st' -> P st') ->
  forall history st st',
    P st -> final (run history st) = Some st' -> P st'.
Proof.
  intros Hserve history.
  induction history as [|[host c] rest IH]; intros st st' HP Hrun.
  - cbn in Hrun. inversion Hrun; subst. exact HP.
  - cbn [run] in Hrun. apply final_bind in Hrun.
    destruct Hrun as [a [st1 [Hstep Hrest]]].
    apply (IH st1); [|exact Hrest].
    apply (Hserve host c st); [exact HP|].
    unfold final. rewrite Hstep. reflexivity.
Qed.

(** Frame proofs that go through the branches of [imageChanged] too. *)
Ltac frame_all :=
  members; unfold imageChanged, divide, startTimer, stopTimer;
  repeat (frame; cbv zeta;
          try match goal with
              | |- respects _ (match ?x with _ => _ end) => destruct x
              end).

(** No call has the component listen to another source. *)
Lemma serve_same_source (host : Host D) (c : Call D) :
  respects (@same_source D) (serve host c).
Proof.
  assert (Hr : forall st : WaveDisplay D, same_source st st)
    by (intro; reflexivity).
  assert (Ht : forall a b c : WaveDisplay D,
             same_source a b -> same_source b c -> same_source a c)
    by (unfold same_source; intros; congruence).
  destruct c; frame_all; reflexivity.
Qed.

(** Only [setZoomRatio] touches the zoom ratio. *)
Lemma serve_same_zoom (host : Host D) (c : Call D) :
  (forall z, c <> CallSetZoomRatio z) ->
  respects (@same_zoom D) (serve host c).
Proof.
  intro Hc.
  assert (Hr : forall st : WaveDisplay D, same_zoom st st)
    by (intro; reflexivity).
  assert (Ht : forall a b c : WaveDisplay D,
             same_zoom a b -> same_zoom b c -> same_zoom a c)
    by (unfold same_zoom; intros; congruence).
  destruct c; try (exfalso; eapply Hc; reflexivity);
    frame_all; reflexivity.
Qed.

(** Only [imageChanged] touches the sample rate. *)
Lemma serve_same_rate (host : Host D) (c : Call D) :
  (forall p, c <> CallImageChanged p) ->
  respects (@same_rate D) (serve host c).
Proof.
  intro Hc.
  assert (Hr : forall st : WaveDisplay D, same_rate st st)
    by (intro; reflexivity).
  assert (Ht : forall a b c : WaveDisplay D,
             same_rate a b -> same_rate b c -> same_rate a c)
    by (unfold same_rate; intros; congruence).
  destruct c; try (exfalso; eapply Hc; reflexivity);
    frame_all; reflexivity.
Qed.

(** What [setZoomRatio] does, in full. *)
Lemma setZoomRatio_run (z : D) (st : WaveDisplay D) :
  setZoomRatio z st
  = if (z <? fromInt 0)%dbl || (z >? fromInt 10000)%dbl
    then ([JAssertFalse; Repaint], Some (tt, set_zoomRatio (fromInt 1) st))
    else ([Repaint], Some (tt, set_zoomRatio z st)).
Proof.
  unfold setZoomRatio, bind, modify, repaint, emit, ret.
  destruct ((z <? fromInt 0)%dbl || (z >? fromInt 10000)%dbl); reflexivity.
Qed.

(** Whatever is asked of the component, the zoom ratio it holds is one the
    test of [setZoomRatio] lets through: not below 0 and not above 10000.
    (That 1 is such a ratio is asked of the arithmetic.) *)
Theorem zoomRatio_stays_in_range :
  (fromInt 1 <? fromInt 0)%dbl = false ->
  (fromInt 1 >? fromInt 10000)%dbl = false ->
  forall (source : Ptr) (u : Uninitialised D)
         (history : list (Host D * Call D)) (st : WaveDisplay D),
    final (run history (snd (construct source u))) = Some st ->
    zoom_in_range st.
Proof.
  intros Hlow Hhigh source u history st Hrun.
  apply (run_keeps zoom_in_range) with (3 := Hrun).
  - intros host c st0 st1 Hin Hstep.
    destruct c;
      try (assert (Hz : same_zoom st0 st1)
            by (refine (final_respects _ _ _ _
                          (serve_same_zoom host _ _) Hstep);
                intros; discriminate);
           unfold same_zoom in Hz; unfold zoom_in_range in *;
           rewrite Hz; exact Hin).
    cbn [serve] in Hstep. rewrite setZoomRatio_run in Hstep.
    unfold zoom_in_range.
    destruct ((newZoomRatio <? fromInt 0)%dbl
              || (newZoomRatio >? fromInt 10000)%dbl) eqn:Htest;
      inversion Hstep; cbn.
    + split; assumption.
    + apply orb_false_iff in Htest. exact Htest.
  - split; assumption.
Qed.

(** The sample rate the component holds is positive, whatever is asked of
    it: it is the 44100 of the constructor and of the branch without a
    reader, or the rate of a reader that passed the test.  (That 44100 is
    positive is asked of the arithmetic.) *)
Theorem sample_rate_stays_positive :
  (fromInt 44100 >? fromInt 0)%dbl = true ->
  forall (source : Ptr) (u : Uninitialised D)
         (history : list (Host D * Call D)) (st : WaveDisplay D),
    final (run history (snd (construct source u))) = Some st ->
    (currentSampleRate st >? fromInt 0)%dbl = true.
Proof.
  intros Hpositive source u history st Hrun.
  apply (run_keeps (fun st => (currentSampleRate st >? fromInt 0)%dbl = true))
    with (3 := Hrun); [|exact Hpositive].
  intros host c st0 st1 Hin Hstep.
  destruct c;
    try (assert (Hz : same_rate st0 st1)
          by (refine (final_respects _ _ _ _
                        (serve_same_rate host _ _) Hstep);
              intros; discriminate);
         unfold same_rate in Hz; rewrite Hz; exact Hin).
  cbn [serve] in Hstep. revert Hstep.
  unfold imageChanged, divide, startTimer, bind, get, emit, modify, ret,
    final.
  cbn.
  destruct (changedAudioThumbnailImage =? audioThumbnailImage st0); cbn.
  2:{ intro H. inversion H. subst. exact Hin. }
  destruct (getAudioFormatReaderSource (audioFilePlayer host)) as [[[r|]]|];
    cbn; try (intro H; inversion H; cbn; exact Hpositive).
  destruct (dlt (fromInt 0) (sampleRate r)) eqn:Hrate; cbn.
  - destruct (showTransportCursor st0); cbn;
      intro H; inversion H; cbn; exact Hrate.
  - intro H; inversion H; cbn; exact Hpositive.
Qed.

(** From construction on, the cursor is to be shown, but the poller does
    not run before [setCursorDisplayed] or [imageChanged] is called. *)
Theorem poller_idle_until_driven :
  forall (source : Ptr) (u : Uninitialised D)
         (history : list (Host D * Call D)) (st : WaveDisplay D),
    forallb (fun hc => negb (drives_poller (snd hc))) history = true ->
    final (run history (snd (construct source u))) = Some st ->
    timer st = None /\ showTransportCursor st = true.
Proof.
  intros source u history.
  assert (Hgen : forall st0 st : WaveDisplay D,
             forallb (fun hc => negb (drives_poller (snd hc))) history = true ->
             final (run history st0) = Some st ->
             same_poller st0 st).
  { induction history as [|[host c] rest IH]; intros st0 st Hcalls Hrun.
    - cbn in Hrun. inversion Hrun. apply same_poller_refl.
    - cbn [forallb snd] in Hcalls. apply andb_true_iff in Hcalls.
      destruct Hcalls as [Hc Hrest]. apply negb_true_iff in Hc.
      cbn [run] in Hrun. apply final_bind in Hrun.
      destruct Hrun as [a [st1 [Hstep Hafter]]].
      apply (same_poller_trans st0 st1 st).
      + apply (serve_same_poller host c Hc st0 a st1). exact Hstep.
      + apply IH; assumption. }
  intros st Hcalls Hrun.
  destruct (Hgen _ st Hcalls Hrun) as [Htimer Hshow].
  rewrite Htimer, Hshow. split; reflexivity.
Qed.

(** [imageChanged], told of its own source, leaves the reciprocal of the
    length it stored. *)
Lemma imageChanged_own_reciprocal (host : Host D) (st st' : WaveDisplay D) :
  final (imageChanged host (audioThumbnailImage st) st) = Some st' ->
  reciprocal_stored st'.
Proof.
  unfold imageChanged, divide, startTimer, bind, get, emit, modify, ret,
    final, reciprocal_stored.
  cbn. rewrite Z.eqb_refl. cbn.
  destruct (getAudioFormatReaderSource (audioFilePlayer host)) as [[[r|]]|];
    cbn; try (intro H; inversion H; reflexivity).
  destruct (dlt (fromInt 0) (sampleRate r)); cbn.
  - destruct (showTransportCursor st); cbn;
      intro H; inversion H; reflexivity.
  - intro H; inversion H; reflexivity.
Qed.

(** Once the component has been told of a change of its own source, the
    reciprocal it holds is, for good, the quotient of 1 by the file length
    it holds: the two are only ever written together. *)
Theorem reciprocal_follows_the_file_length :
  forall (source : Ptr) (u : Uninitialised D) (host : Host D)
         (before after : list (Host D * Call D)) (st : WaveDisplay D),
    final (run (before ++ (host, CallImageChanged source) :: after)
               (snd (construct source u))) = Some st ->
    oneOverFileLength st = dquot (fromInt 1) (fileLength st).
Proof.
  intros source u host before after st Hrun.
  apply run_app in Hrun. destruct Hrun as [st1 [Hbefore Hrest]].
  cbn [run] in Hrest. apply final_bind in Hrest.
  destruct Hrest as [a [st2 [Hstep Hafter]]].
  assert (Hsource : audioThumbnailImage st1 = source).
  { apply (final_respects (@same_source D) (run before) _ st1) in Hbefore.
    - exact Hbefore.
    - apply run_respects.
      + intro; reflexivity.
      + unfold same_source; intros; congruence.
      + apply serve_same_source. }
  apply (reciprocal_kept after st2 st); [|exact Hafter].
  apply (imageChanged_own_reciprocal host st1).
  cbn [serve] in Hstep. rewrite Hsource. unfold final. rewrite Hstep.
  reflexivity.
Qed.

(** [imageChanged], told of its own source while the player has a reader
    with a positive sample rate, takes the rate from the reader and the
    length from the player, drops the cached image, and starts the poller
    if the cursor is shown; it does not stop a poller that runs. *)
Theorem imageChanged_with_reader :
  forall (host : Host D) (st : WaveDisplay D) (r : AudioFormatReader D),
    usableReader host = Some r ->
    exists st',
      imageChanged host (audioThumbnailImage st) st
      = ([Divide (fromInt 1) (getLengthInSeconds (audioFilePlayer host))],
         Some (tt, st'))
      /\ currentSampleRate st' = sampleRate r
      /\ fileLength st' = getLengthInSeconds (audioFilePlayer host)
      /\ oneOverFileLength st'
         = dquot (fromInt 1) (getLengthInSeconds (audioFilePlayer host))
      /\ cachedImage st' = Image.null
      /\ timer st' = (if showTransportCursor st then Some 40 else timer st)
      /\ showTransportCursor st' = showTransportCursor st.
Proof.
  intros host st r Hreader.
  unfold imageChanged, usableReader, divide, startTimer, bind, get, emit,
    modify, ret in *.
  cbn. rewrite Z.eqb_refl. cbn.
  destruct (getAudioFormatReaderSource (audioFilePlayer host))
    as [[[r0|]]|]; cbn in *; try discriminate.
  destruct (dlt (fromInt 0) (sampleRate r0)) eqn:Hrate; [|discriminate].
  inversion Hreader; subst r0. cbn.
  destruct (showTransportCursor st) eqn:Hshow; cbn;
    eexists; repeat split; cbn; try rewrite Hshow; reflexivity.
Qed.

End MoreOfTheComponent.

(* ================================================================== *)
(** ** The strips and the cursor image *)

Section Strips.

Context {D : Type} {DD : Double D}.

Ltac every_branch :=
  repeat (cbn;
          match goal with
          | |- context [match ?x with _ => _ end] =>
              lazymatch x with
              | context [match _ with _ => _ end] => fail
              | _ => destruct x eqn:?
              end
          end);
  cbn.

(** The one image [paint] draws with [drawImageAt] is the cursor image,
    one pixel to the left of the cursor, at the top. *)
Lemma paint_draws_cursor_image (host : Host D) (st : WaveDisplay D)
      (img : Image.t) (x y : Z) :
  In (DrawImageAt img x y) (effects (paint host st)) ->
  img = cursorImage st
  /\ x = StateVariable.getCurrent (transportLineXCoord st) - 1
  /\ y = 0.
Proof.
  unfold paint, truncate, int_sub, defined, ret, undefined, bind, get, emit,
    effects.
  every_branch; intro H;
    repeat (destruct H as [H|H]; [try discriminate|]);
    try contradiction;
    inversion H; subst; repeat split.
Qed.

(** When a tick moves the cursor, the two strips it asks to be redrawn
    hold the cursor image where [paint] drew it before the tick and where
    [paint] draws it after: for a cursor image 3 pixels wide and no higher
    than the viewport, as [resized] makes it. *)
Theorem strips_cover_the_cursor_image :
  forall (host : Host D) (st : WaveDisplay D) (x1 : Z),
    let x0 := StateVariable.getCurrent (transportLineXCoord st) in
    cursorPixel host st = Some x1 ->
    x1 <> x0 ->
    in_int (x0 - 2) = true ->
    in_int (x1 - 2) = true ->
    Image.getWidth (cursorImage st) = 3 ->
    0 <= Image.getHeight (cursorImage st) <= getHeight host ->
    exists st',
      final (timerCallback host waveformUpdated st) = Some st'
      /\ redraws (effects (timerCallback host waveformUpdated st))
         = [RepaintArea (x0 - 2) 0 5 (getHeight host);
            RepaintArea (x1 - 2) 0 5 (getHeight host)]
      /\ (forall img x y,
             In (DrawImageAt img x y) (effects (paint host st)) ->
             inside x y (Image.getWidth img) (Image.getHeight img)
                    (x0 - 2) 0 5 (getHeight host))
      /\ (forall img x y,
             In (DrawImageAt img x y) (effects (paint host st')) ->
             inside x y (Image.getWidth img) (Image.getHeight img)
                    (x1 - 2) 0 5 (getHeight host)).
Proof.
  intros host st x1 x0 Hpixel Hmoved Hx0 Hx1 Hwidth Hheight.
  rewrite (timerCallback_run host st x1 Hpixel (fun _ => conj Hx0 Hx1)).
  fold x0. apply Z.eqb_neq in Hmoved. rewrite Hmoved.
  eexists. split; [reflexivity|]. split; [reflexivity|].
  split; intros img x y Hdrawn;
    apply paint_draws_cursor_image in Hdrawn;
    destruct Hdrawn as [Himg [Hx Hy]]; subst img x y; cbn;
    unfold inside, StateVariable.getCurrent in *; cbn;
    rewrite Hwidth; lia.
Qed.

End Strips.

(* ================================================================== *)
(** ** The cursor and the picture, in exact arithmetic *)

Lemma Qtrunc_monotone (q1 q2 : Q) :
  (q1 <= q2)%Q -> Qtrunc q1 <= Qtrunc q2.
Proof.
  destruct q1 as [n1 d1], q2 as [n2 d2]. unfold Qle, Qtrunc. cbn.
  intro Hle.
  rewrite <- (Z.quot_mul_cancel_r n1 (Z.pos d1) (Z.pos d2)) by lia.
  rewrite <- (Z.quot_mul_cancel_r n2 (Z.pos d2) (Z.pos d1)) by lia.
  rewrite (Z.mul_comm (Z.pos d2) (Z.pos d1)).
  apply Z.quot_le_mono; lia.
Qed.

Lemma Qtrunc_of_equal (q1 q2 : Q) : (q1 == q2)%Q -> Qtrunc q1 = Qtrunc q2.
Proof.
  intro Heq. apply Z.le_antisymm; apply Qtrunc_monotone;
    rewrite Heq; apply Qle_refl.
Qed.

Lemma Qtrunc_of_integer (z : Z) : Qtrunc (inject_Z z) = z.
Proof. unfold Qtrunc, inject_Z. cbn. apply Z.quot_1_r. Qed.

(** The cursor does not go back while the playback position goes on:
    with the viewport no narrower than nothing, the stored reciprocal not
    negative and the zoom ratio positive, a later position gives a pixel at
    or to the right of an earlier one's. *)
Theorem cursor_follows_the_position :
  forall (host1 host2 : Host Q) (st : WaveDisplay Q) (x1 x2 : Z),
    getWidth host1 = getWidth host2 ->
    0 <= getWidth host1 ->
    (0 <= oneOverFileLength st)%Q ->
    (0 < zoomRatio st)%Q ->
    (getCurrentPosition (audioFilePlayer host1)
     <= getCurrentPosition (audioFilePlayer host2))%Q ->
    cursorPixel host1 st = Some x1 ->
    cursorPixel host2 st = Some x2 ->
    x1 <= x2.
Proof.
  intros host1 host2 st x1 x2 Hsame Hw Hinv Hzoom Hlater.
  unfold cursorPixel. rewrite <- Hsame.
  destruct (toInt (fromInt (getWidth host1) * startOffsetRatio st)%dbl)
    as [startPixel|]; [|discriminate].
  cbn. intros H1 H2.
  apply Q_to_int_trunc in H1, H2. subst x1 x2.
  apply Qtrunc_monotone.
  assert (HwQ : (0 <= inject_Z (getWidth host1))%Q).
  { change 0%Q with (inject_Z 0). rewrite <- Zle_Qle. exact Hw. }
  apply Qplus_le_r. unfold Qdiv.
  apply Qmult_le_compat_r.
  - assert (Hk : (0 <= inject_Z (getWidth host1) * oneOverFileLength st)%Q)
      by (apply Qmult_le_0_compat; assumption).
    set (k := (inject_Z (getWidth host1) * oneOverFileLength st)%Q) in *.
    nra.
  - apply Qlt_le_weak, Qinv_lt_0_compat. exact Hzoom.
Qed.

(** With no start offset, a zoom ratio of 1 or more, a file of positive
    length whose reciprocal is stored and a position within the file, the
    poller's pixel is defined and lies in the viewport, from 0 to its
    width. *)
Theorem cursor_stays_in_the_viewport :
  forall (host : Host Q) (st : WaveDisplay Q),
    0 <= getWidth host <= INT_MAX ->
    (0 < fileLength st)%Q ->
    (oneOverFileLength st == 1 / fileLength st)%Q ->
    (1 <= zoomRatio st)%Q ->
    (startOffsetRatio st == 0)%Q ->
    (0 <= getCurrentPosition (audioFilePlayer host) <= fileLength st)%Q ->
    exists x,
      cursorPixel host st = Some x /\ 0 <= x <= getWidth host.
Proof.
  intros host st [Hw Hmax] HL Hinv Hzoom Hstart [Hp0 HpL].
  unfold cursorPixel. cbn.
  set (w := getWidth host) in *.
  set (p := getCurrentPosition (audioFilePlayer host)) in *.
  set (L := fileLength st) in *. set (z := zoomRatio st) in *.
  assert (HwQ : (0 <= inject_Z w)%Q).
  { change 0%Q with (inject_Z 0). rewrite <- Zle_Qle. exact Hw. }
  assert (Hsp : Qtrunc (inject_Z w * startOffsetRatio st) = 0).
  { rewrite (Qtrunc_of_equal _ 0); [reflexivity|].
    rewrite Hstart. ring. }
  unfold Q_to_int at 1. rewrite Hsp. cbn.
  set (q := (inject_Z 0 + inject_Z w * oneOverFileLength st * p / z)%Q).
  assert (Hz0 : (0 < z)%Q)
    by (apply Qlt_le_trans with 1%Q; [reflexivity | exact Hzoom]).
  assert (Hq : (q == inject_Z w * (p / L) / z)%Q).
  { unfold q. rewrite Hinv. change (inject_Z 0) with 0%Q. field.
    split; apply Qnot_eq_sym, Qlt_not_eq; assumption. }
  assert (Hratio : (0 <= p / L <= 1)%Q).
  { split.
    - apply Qle_shift_div_l; [exact HL|]. rewrite Qmult_0_l. exact Hp0.
    - apply Qle_shift_div_r; [exact HL|]. rewrite Qmult_1_l. exact HpL. }
  assert (Hlow : (0 <= q)%Q).
  { rewrite Hq. apply Qle_shift_div_l; [exact Hz0|]. rewrite Qmult_0_l.
    apply Qmult_le_0_compat; [exact HwQ | apply Hratio]. }
  assert (Hhigh : (q <= inject_Z w)%Q).
  { rewrite Hq. apply Qle_shift_div_r; [exact Hz0|].
    destruct Hratio as [Hr0 Hr1]. nra. }
  assert (Hx0 : 0 <= Qtrunc q).
  { pose proof (Qtrunc_monotone _ _ Hlow) as H.
    change 0%Q with (inject_Z 0) in H.
    rewrite Qtrunc_of_integer in H. exact H. }
  assert (Hxw : Qtrunc q <= w).
  { pose proof (Qtrunc_monotone _ _ Hhigh) as H.
    rewrite Qtrunc_of_integer in H. exact H. }
  exists (Qtrunc q). split; [|lia].
  unfold Q_to_int.
  replace (in_int (Qtrunc q)) with true; [reflexivity|].
  unfold in_int, INT_MIN, INT_MAX in *. lia.
Qed.

(** Where [paint] puts the cached image: at the height and with the height
    it computes from the vertical zoom ratio. *)
Lemma paint_places_the_image {D : Type} {DD : Double D}
      (host : Host D) (st : WaveDisplay D) (img : Image.t)
      (dx dy dw dh sx sy sw sh : Z) (fa : bool) :
  In (DrawImage img dx dy dw dh sx sy sw sh fa) (effects (paint host st)) ->
  toInt (fromInt (getHeight host) * half
         - verticalZoomRatio st * fromInt (getHeight host) * half)%dbl
  = Some dy
  /\ toInt (verticalZoomRatio st * fromInt (getHeight host))%dbl = Some dh.
Proof.
  unfold paint, truncate, int_sub, defined, ret, undefined, bind, get, emit,
    effects.
  repeat (cbn;
          match goal with
          | |- context [match ?x with _ => _ end] =>
              lazymatch x with
              | context [match _ with _ => _ end] => fail
              | _ => destruct x eqn:?
              end
          end);
    cbn; intro H;
    repeat (destruct H as [H|H]; [try discriminate|]);
    try contradiction;
    inversion H; subst; split; reflexivity.
Qed.

(** [paint] centres the cached image on the height of the viewport: twice
    the distance from the top plus the image's drawn height is the
    viewport's height, to within 2 pixels lost in the conversions. *)
Theorem paint_centres_the_image :
  forall (host : Host Q) (st : WaveDisplay Q) (img : Image.t)
         (dx dy dw dh sx sy sw sh : Z) (fa : bool),
    In (DrawImage img dx dy dw dh sx sy sw sh fa) (effects (paint host st)) ->
    -2 <= 2 * dy + dh - getHeight host <= 2.
Proof.
  intros host st img dx dy dw dh sx sy sw sh fa Hdrawn.
  apply paint_places_the_image in Hdrawn. destruct Hdrawn as [Hy Hh].
  cbn in Hy, Hh. apply Q_to_int_trunc in Hy, Hh.
  set (h := getHeight host) in *. set (v := verticalZoomRatio st) in *.
  destruct (Qtrunc_within_one (inject_Z h * (1 # 2) - v * inject_Z h * (1 # 2)))
    as [Hy1 Hy2].
  destruct (Qtrunc_within_one (v * inject_Z h)) as [Hh1 Hh2].
  rewrite <- Hy in Hy1, Hy2. rewrite <- Hh in Hh1, Hh2.
  assert (Hbound :
            (inject_Z (-3) < inject_Z (2 * dy + dh - h) < inject_Z 3)%Q).
  { unfold Z.sub. rewrite !inject_Z_plus, inject_Z_mult, inject_Z_opp.
    change (inject_Z 2) with 2%Q. change (inject_Z (-3)) with (-3)%Q.
    change (inject_Z 3) with 3%Q.
    split; lra. }
  destruct Hbound as [Hlow Hhigh].
  rewrite <- Zlt_Qlt in Hlow, Hhigh. lia.
Qed.

(** With the vertical zoom ratio at 1, as the constructor sets it, the
    cached image is drawn from the top of the viewport and over its whole
    height. *)
Theorem paint_fills_the_height :
  forall (host : Host Q) (st : WaveDisplay Q) (img : Image.t)
         (dx dy dw dh sx sy sw sh : Z) (fa : bool),
    (verticalZoomRatio st == 1)%Q ->
    In (DrawImage img dx dy dw dh sx sy sw sh fa) (effects (paint host st)) ->
    dy = 0 /\ dh = getHeight host.
Proof.
  intros host st img dx dy dw dh sx sy sw sh fa Hone Hdrawn.
  apply paint_places_the_image in Hdrawn. destruct Hdrawn as [Hy Hh].
  cbn in Hy, Hh. apply Q_to_int_trunc in Hy, Hh. subst dy dh. split.
  - rewrite (Qtrunc_of_equal _ (inject_Z 0)); [apply Qtrunc_of_integer|].
    rewrite Hone. change (inject_Z 0) with 0%Q. ring.
  - rewrite (Qtrunc_of_equal _ (inject_Z (getHeight host)));
      [apply Qtrunc_of_integer|].
    rewrite Hone. ring.
Qed.

(* ================================================================== *)
(** ** The further theorems, applied *)

Lemma reverseArray_reverses_applied :
  5 <= INT_MAX
  /\ Arrays.reverseArray [1; 2; 3; 4; 5] 5 = Arrays.Finished [5; 4; 3; 2; 1].
Proof.
  split; [unfold INT_MAX; lia|].
  apply (reverseArray_reverses [1; 2; 3; 4; 5]). unfold INT_MAX. cbn. lia.
Defined.

Lemma reverseArray_reverses_front_applied :
  Arrays.reverseArray [1; 2; 3; 4; 5] 3 = Arrays.Finished [3; 2; 1; 4; 5].
Proof.
  apply (reverseArray_reverses_front [1; 2; 3; 4; 5] 3);
    [cbn; lia | unfold INT_MAX; lia].
Defined.

Lemma reverseArray_short_length_applied :
  Arrays.reverseArray [1; 2; 3] (-3) = Arrays.Finished [1; 2; 3]
  /\ Arrays.reverseArray (@nil Z) 1 = Arrays.Finished [].
Proof.
  split.
  - apply (reverseArray_short_length [1; 2; 3] (-3)). unfold INT_MIN. lia.
  - apply (reverseArray_short_length (@nil Z) 1). unfold INT_MIN. lia.
Defined.

Lemma reverseArray_beyond_the_array_applied :
  Arrays.reverseArray [1; 2; 3; 4; 5] 6 = Arrays.Undefined.
Proof.
  apply (reverseArray_beyond_the_array [1; 2; 3; 4; 5] 6);
    [unfold INT_MAX; lia | cbn; lia].
Defined.

Lemma reverseArray_twice_applied :
  Arrays.reverseArray [1; 2; 3; 4; 5] 4 = Arrays.Finished [4; 3; 2; 1; 5]
  /\ Arrays.reverseArray [4; 3; 2; 1; 5] 4 = Arrays.Finished [1; 2; 3; 4; 5].
Proof.
  split; [reflexivity|].
  apply (reverseArray_twice [1; 2; 3; 4; 5] [4; 3; 2; 1; 5] 4);
    reflexivity.
Defined.

Lemma reverseTwoArrays_reverses_each_applied :
  Arrays.reverseTwoArrays [0; 1; 2; 3; 9; 4; 5; 6; 8] 1 5 3
  = Arrays.Finished [0; 3; 2; 1; 9; 6; 5; 4; 8]
  /\ Arrays.reverseTwoArrays [0; 1; 2; 3; 9; 4; 5; 6; 8] 5 1 3
     = Arrays.Finished [0; 3; 2; 1; 9; 6; 5; 4; 8].
Proof.
  apply (reverseTwoArrays_reverses_each [0] [1; 2; 3] [9] [4; 5; 6] [8]);
    [reflexivity | unfold INT_MAX; cbn; lia].
Defined.

Lemma reverseTwoArrays_same_array_applied :
  Arrays.reverseTwoArrays [0; 1; 2; 3; 4; 5] 1 1 4
  = Arrays.Finished [0; 1; 2; 3; 4; 5].
Proof.
  apply (reverseTwoArrays_same_array [0; 1; 2; 3; 4; 5] 1 4);
    [lia | cbn; lia | reflexivity | unfold INT_MIN; lia].
Defined.

Lemma parseITunesDateString_reads_the_fields_applied :
  parseITunesDateString
    (map digitChar [2; 0; 1; 0] ++ JuceString.minus
     :: map digitChar [1; 2] ++ JuceString.minus
     :: map digitChar [2; 7] ++ JuceString.minus
     :: map digitChar [1; 7] ++ JuceString.minus
     :: map digitChar [4; 4] ++ JuceString.minus
     :: map digitChar [3; 2] ++ [JuceString.minus])%nat
  = {| year := 2010; month := 11; day := 27;
       hours := 17; minutes := 44; seconds := 32;
       milliseconds := 0; useLocalTime := true |}.
Proof.
  apply (parseITunesDateString_reads_the_fields
           [2; 0; 1; 0] [1; 2] [2; 7] [1; 7] [4; 4] [3; 2]
           JuceString.minus JuceString.minus JuceString.minus
           JuceString.minus JuceString.minus [JuceString.minus])%nat;
    try reflexivity.
  cbn. repeat constructor; lia.
Defined.

Lemma parseITunesDateString_short_input_applied :
  month (parseITunesDateString (map digitChar [2; 0; 1; 0]%nat)) = -1.
Proof.
  apply (parseITunesDateString_short_input (map digitChar [2; 0; 1; 0]%nat)).
  cbn. lia.
Defined.

Section AddressesApplied.

Import Stdlib.Strings.String.

Lemma stripFileProtocolForLocal_keeps_the_path_applied :
  stripFileProtocolForLocal
    false (fun s => s)
    (JuceString.literal "file://localhost"%string ++ []
     ++ JuceString.slash :: JuceString.literal "Music/a.mp3"%string)
  = JuceString.slash :: JuceString.literal "Music/a.mp3"%string.
Proof.
  apply (stripFileProtocolForLocal_keeps_the_path
           false (fun s => s) [] (JuceString.literal "Music/a.mp3"%string)).
  intros [].
Defined.

Lemma stripFileProtocolForLocal_without_a_path_applied :
  stripFileProtocolForLocal
    false (fun s => s) (JuceString.literal "file://localhost"%string ++ [])
  = JuceString.literal "file://localhost"%string ++ [].
Proof.
  apply (stripFileProtocolForLocal_without_a_path false (fun s => s) []).
  intros [].
Defined.

End AddressesApplied.

Lemma paint_changes_nothing_applied :
  let host := Scenario.host float 800 200 (Scenario.silent float) in
  final (paint host (Scenario.ready float)) = Some (Scenario.ready float)
  /\ redraws (effects (paint host (Scenario.ready float))) = [].
Proof.
  cbv zeta. split; [vm_compute; reflexivity|].
  apply (paint_changes_nothing
           (Scenario.host float 800 200 (Scenario.silent float))
           (Scenario.ready float) (Scenario.ready float)).
  vm_compute. reflexivity.
Defined.

Lemma mouse_ignored_while_cursor_hidden_applied :
  let host := Scenario.host float 800 200 (Scenario.silent float) in
  let hidden := set_showTransportCursor false (Scenario.ready float) in
  run [(host, CallMouseDown 400); (host, CallMouseDrag 410);
       (host, CallMouseUp 410)] hidden
  = ([], Some (tt, hidden)).
Proof.
  cbv zeta.
  apply (mouse_ignored_while_cursor_hidden
           [(Scenario.host float 800 200 (Scenario.silent float),
             CallMouseDown 400);
            (Scenario.host float 800 200 (Scenario.silent float),
             CallMouseDrag 410);
            (Scenario.host float 800 200 (Scenario.silent float),
             CallMouseUp 410)]
           (set_showTransportCursor false (Scenario.ready float)));
    reflexivity.
Defined.


Lemma zoomRatio_stays_in_range_applied :
  final (run (Scenario.opening float)
             (snd (construct Scenario.source (Scenario.garbage float))))
  = Some (Scenario.ready float)
  /\ zoom_in_range (Scenario.ready float).
Proof.
  split; [vm_compute; reflexivity|].
  refine (zoomRatio_stays_in_range
            (D := float) (DD := Binary64) _ _
            Scenario.source (Scenario.garbage float)
            (Scenario.opening float) (Scenario.ready float) _);
    vm_compute; reflexivity.
Defined.

Lemma sample_rate_stays_positive_applied :
  PrimFloat.ltb 0 (currentSampleRate (Scenario.ready float)) = true.
Proof.
  refine (sample_rate_stays_positive
            (D := float) (DD := Binary64) _
            Scenario.source (Scenario.garbage float)
            (Scenario.opening float) (Scenario.ready float) _);
    vm_compute; reflexivity.
Defined.

Lemma poller_idle_until_driven_applied :
  let host := Scenario.host float 800 200 (Scenario.silent float) in
  exists st,
    final (run [(host, CallResized); (host, CallPaint)]
               (snd (construct Scenario.source (Scenario.garbage float))))
    = Some st
    /\ timer st = None
    /\ showTransportCursor st = true.
Proof.
  cbv zeta. eexists. split; [vm_compute; reflexivity|].
  eapply (poller_idle_until_driven
            Scenario.source (Scenario.garbage float)
            [(Scenario.host float 800 200 (Scenario.silent float),
              CallResized);
             (Scenario.host float 800 200 (Scenario.silent float),
              CallPaint)]);
    [reflexivity | vm_compute; reflexivity].
Defined.

Lemma reciprocal_follows_the_file_length_applied :
  oneOverFileLength (Scenario.ready float)
  = PrimFloat.div 1 (fileLength (Scenario.ready float)).
Proof.
  refine (reciprocal_follows_the_file_length
            Scenario.source (Scenario.garbage float)
            (Scenario.host float 800 200
                           (Scenario.playing float 100%float 0%float))
            []
            [(Scenario.host float 800 200
                            (Scenario.playing float 100%float 0%float),
              CallResized)]
            (Scenario.ready float) _).
  vm_compute. reflexivity.
Defined.

Lemma imageChanged_with_reader_applied :
  let host :=
    Scenario.host float 800 200 (Scenario.playing float 100%float 0%float) in
  usableReader host = Some {| sampleRate := 44100%float |}
  /\ exists st',
       imageChanged host Scenario.source (Scenario.fresh float)
       = ([Divide 1%float 100%float], Some (tt, st'))
       /\ fileLength st' = 100%float
       /\ timer st' = Some 40.
Proof.
  cbv zeta. split; [vm_compute; reflexivity|].
  destruct (imageChanged_with_reader
              (Scenario.host float 800 200
                             (Scenario.playing float 100%float 0%float))
              (Scenario.fresh float) {| sampleRate := 44100%float |})
    as [st' [Hrun [_ [Hlength [_ [_ [Htimer _]]]]]]].
  - vm_compute. reflexivity.
  - exists st'. split; [exact Hrun|]. split; [exact Hlength | exact Htimer].
Defined.

Lemma strips_cover_the_cursor_image_applied :
  let host :=
    Scenario.host float 800 200 (Scenario.playing float 100%float 50%float) in
  cursorPixel host (Scenario.ready float) = Some 400
  /\ inside (0 - 1) 0 3 200 (0 - 2) 0 5 200
  /\ inside (400 - 1) 0 3 200 (400 - 2) 0 5 200
  /\ exists st',
       final (timerCallback host waveformUpdated (Scenario.ready float))
       = Some st'
       /\ redraws (effects (timerCallback host waveformUpdated
                                          (Scenario.ready float)))
          = [RepaintArea (0 - 2) 0 5 200; RepaintArea (400 - 2) 0 5 200].
Proof.
  cbv zeta. split; [vm_compute; reflexivity|].
  split; [unfold inside; lia|]. split; [unfold inside; lia|].
  destruct (strips_cover_the_cursor_image
              (Scenario.host float 800 200
                             (Scenario.playing float 100%float 50%float))
              (Scenario.ready float) 400)
    as [st' [Hrun [Hstrips _]]].
  - vm_compute. reflexivity.
  - cbn. lia.
  - reflexivity.
  - reflexivity.
  - reflexivity.
  - cbn. lia.
  - exists st'. split; [exact Hrun | exact Hstrips].
Defined.

Lemma cursor_follows_the_position_applied :
  let earlier := Scenario.host Q 800 200 (Scenario.playing Q 100%Q 25%Q) in
  let later := Scenario.host Q 800 200 (Scenario.playing Q 100%Q 50%Q) in
  cursorPixel earlier (Scenario.ready Q) = Some 200
  /\ cursorPixel later (Scenario.ready Q) = Some 400
  /\ 200 <= 400.
Proof.
  cbv zeta. split; [vm_compute; reflexivity|].
  split; [vm_compute; reflexivity|].
  apply (cursor_follows_the_position
           (Scenario.host Q 800 200 (Scenario.playing Q 100%Q 25%Q))
           (Scenario.host Q 800 200 (Scenario.playing Q 100%Q 50%Q))
           (Scenario.ready Q) 200 400);
    try (vm_compute; reflexivity); try (vm_compute; discriminate).
Defined.

Lemma cursor_stays_in_the_viewport_applied :
  let host := Scenario.host Q 800 200 (Scenario.playing Q 100%Q 50%Q) in
  exists x, cursorPixel host (Scenario.ready Q) = Some x /\ 0 <= x <= 800.
Proof.
  cbv zeta.
  refine (cursor_stays_in_the_viewport
            (Scenario.host Q 800 200 (Scenario.playing Q 100%Q 50%Q))
            (Scenario.ready Q) _ _ _ _ _ _).
  - cbn. unfold INT_MAX. lia.
  - vm_compute. reflexivity.
  - vm_compute. reflexivity.
  - vm_compute. discriminate.
  - vm_compute. reflexivity.
  - split; vm_compute; discriminate.
Defined.

Lemma paint_centres_the_image_applied :
  let host := Scenario.host Q 800 201 (Scenario.silent Q) in
  let st := set_verticalZoomRatio (1 # 2)%Q (Scenario.ready Q) in
  In (DrawImage (cachedImage st) 0 50 800 100 0 0 800 200 false)
     (effects (paint host st))
  /\ -2 <= 2 * 50 + 100 - 201 <= 2.
Proof.
  cbv zeta.
  assert (Hdrawn :
            In (DrawImage
                  (cachedImage
                     (set_verticalZoomRatio (1 # 2)%Q (Scenario.ready Q)))
                  0 50 800 100 0 0 800 200 false)
               (effects
                  (paint (Scenario.host Q 800 201 (Scenario.silent Q))
                         (set_verticalZoomRatio (1 # 2)%Q
                                                (Scenario.ready Q))))).
  { vm_compute. right. right. left. reflexivity. }
  split; [exact Hdrawn|].
  exact (paint_centres_the_image _ _ _ _ _ _ _ _ _ _ _ _ Hdrawn).
Defined.

Lemma paint_fills_the_height_applied :
  let host := Scenario.host Q 800 200 (Scenario.silent Q) in
  In (DrawImage (cachedImage (Scenario.ready Q)) 0 0 800 200 0 0 800 200 false)
     (effects (paint host (Scenario.ready Q)))
  /\ 0 = 0 /\ 200 = getHeight host.
Proof.
  cbv zeta.
  assert (Hdrawn :
            In (DrawImage (cachedImage (Scenario.ready Q))
                          0 0 800 200 0 0 800 200 false)
               (effects (paint (Scenario.host Q 800 200 (Scenario.silent Q))
                               (Scenario.ready Q)))).
  { vm_compute. right. right. left. reflexivity. }
  split; [exact Hdrawn|].
  refine (paint_fills_the_height _ _ _ _ _ _ _ _ _ _ _ _ _ Hdrawn).
  vm_compute. reflexivity.
Defined.
